(** * tlock-js command-line examples: a shallow embedding

  The development follows the two JavaScript entry points of the
  repository that carry decision logic:

  - [examples/cli-encrypt.js]: [parseArgs], [encryptText], [main];
  - [examples/encrypt-arbitrary-text.js]: [validateRound], [encryptText].

  JavaScript strings are sequences of UTF-16 code units, JavaScript numbers
  are IEEE 754 binary64 values ([spec_float] of the standard library, with
  precision 53 and maximal exponent 1024).  Console output, file writes and
  the calls made to the drand client and to [timelockEncrypt] are recorded in
  an ordered trace; the answers of these collaborators come from an
  environment record. *)

From Stdlib Require Import ZArith NArith QArith Qround List String Ascii Bool Lia.
From Stdlib Require Import Floats.SpecFloat.
From Stdlib Require Import Permutation.
Import ListNotations.

Local Open Scope list_scope.

(* ================================================================== *)
(** ** JavaScript strings *)

Module JsString.

(** A string is the list of its UTF-16 code units. *)
Definition code_unit := N.
Definition jsstring := list code_unit.

(** [s === t] on strings. *)
Fixpoint eqb (s t : jsstring) : bool :=
  match s, t with
  | [], [] => true
  | a :: s', b :: t' => N.eqb a b && eqb s' t'
  | _, _ => false
  end.

(** *** Literals

    Source literals are written as Rocq strings, which hold the UTF-8 bytes
    of the text; [js] decodes them to code units. *)

Definition cont (b : N) : N := (b mod 64)%N.

Fixpoint utf8_decode (bs : list N) : list N :=
  match bs with
  | [] => []
  | b0 :: r0 =>
      if (b0 <? 128)%N then b0 :: utf8_decode r0
      else
        match r0 with
        | [] => [65533%N]
        | b1 :: r1 =>
            if (b0 <? 224)%N then
              ((b0 mod 32) * 64 + cont b1)%N :: utf8_decode r1
            else
              match r1 with
              | [] => [65533%N]
              | b2 :: r2 =>
                  if (b0 <? 240)%N then
                    ((b0 mod 16) * 4096 + cont b1 * 64 + cont b2)%N
                      :: utf8_decode r2
                  else
                    match r2 with
                    | [] => [65533%N]
                    | b3 :: r3 =>
                        ((b0 mod 8) * 262144 + cont b1 * 4096
                         + cont b2 * 64 + cont b3)%N :: utf8_decode r3
                    end
              end
        end
  end.

(** A code point as one code unit or as a surrogate pair. *)
Definition utf16_of_code_point (cp : N) : jsstring :=
  if (cp <? 65536)%N then [cp]
  else [(55296 + (cp - 65536) / 1024)%N; (56320 + (cp - 65536) mod 1024)%N].

Definition js (s : string) : jsstring :=
  flat_map utf16_of_code_point
           (utf8_decode (map N_of_ascii (list_ascii_of_string s))).

(** The double quote, kept apart from the literals. *)
Definition dquote : jsstring := [34%N].

(** *** UTF-8 encoding: [Buffer.from(s, 'utf8')] and the bytes a stream
    receives for a written string.  A lone surrogate becomes U+FFFD. *)

Definition is_high_surrogate (u : N) : bool := (55296 <=? u)%N && (u <? 56320)%N.
Definition is_low_surrogate (u : N) : bool := (56320 <=? u)%N && (u <? 57344)%N.

Definition utf8_3 (u : N) : list N :=
  [(224 + u / 4096)%N; (128 + (u / 64) mod 64)%N; (128 + u mod 64)%N].

Definition utf8_4 (cp : N) : list N :=
  [(240 + cp / 262144)%N; (128 + (cp / 4096) mod 64)%N;
   (128 + (cp / 64) mod 64)%N; (128 + cp mod 64)%N].

Definition replacement : list N := [239%N; 191%N; 189%N].

Fixpoint utf8_encode (s : jsstring) : list N :=
  match s with
  | [] => []
  | u :: r =>
      if (u <? 128)%N then u :: utf8_encode r
      else if (u <? 2048)%N then
        (192 + u / 64)%N :: (128 + u mod 64)%N :: utf8_encode r
      else if is_high_surrogate u then
        match r with
        | [] => replacement
        | v :: r' =>
            if is_low_surrogate v then
              utf8_4 (65536 + (u - 55296) * 1024 + (v - 56320))%N
                ++ utf8_encode r'
            else replacement ++ utf8_encode r
        end
      else if is_low_surrogate u then replacement ++ utf8_encode r
      else utf8_3 u ++ utf8_encode r
  end.

(** *** White space

    [String.prototype.trim] and [parseInt] strip the code points of the
    ECMAScript productions WhiteSpace and LineTerminator. *)
Definition is_whitespace (u : code_unit) : bool :=
  ((9 <=? u) && (u <=? 13) || (u =? 32) || (u =? 160) || (u =? 5760)
   || (8192 <=? u) && (u <=? 8202) || (u =? 8232) || (u =? 8233)
   || (u =? 8239) || (u =? 8287) || (u =? 12288) || (u =? 65279))%N.

Fixpoint trimStart (s : jsstring) : jsstring :=
  match s with
  | [] => []
  | u :: s' => if is_whitespace u then trimStart s' else s
  end.

Definition trimEnd (s : jsstring) : jsstring := rev (trimStart (rev s)).

Definition trim (s : jsstring) : jsstring := trimEnd (trimStart s).

(** [s.startsWith(p)] *)
Fixpoint startsWith (s p : jsstring) : bool :=
  match p, s with
  | [], _ => true
  | a :: p', b :: s' => N.eqb a b && startsWith s' p'
  | _ :: _, [] => false
  end.

(** [args.includes(x)] on an array of strings. *)
Definition includes (args : list jsstring) (x : jsstring) : bool :=
  existsb (fun a => eqb a x) args.

(** [s.repeat(n)] *)
Fixpoint repeat (s : jsstring) (n : nat) : jsstring :=
  match n with
  | O => []
  | S n' => s ++ repeat s n'
  end.

(** [s.replace(/[:.]/g, '-')] *)
Definition replace_colon_period (s : jsstring) : jsstring :=
  map (fun u => if ((u =? 58) || (u =? 46))%N then 45%N else u) s.

(** [s.slice(0, -k)]: everything but the last [k] code units. *)
Definition slice_0_neg (k : nat) (s : jsstring) : jsstring :=
  firstn (List.length s - k) s.

(** Truthiness of a string: only the empty string is falsy. *)
Definition truthy (s : jsstring) : bool :=
  match s with [] => false | _ :: _ => true end.

(** Decimal digits of a natural number. *)
Fixpoint digits_of_uint (d : Decimal.uint) : jsstring :=
  match d with
  | Decimal.Nil => []
  | Decimal.D0 d' => 48%N :: digits_of_uint d'
  | Decimal.D1 d' => 49%N :: digits_of_uint d'
  | Decimal.D2 d' => 50%N :: digits_of_uint d'
  | Decimal.D3 d' => 51%N :: digits_of_uint d'
  | Decimal.D4 d' => 52%N :: digits_of_uint d'
  | Decimal.D5 d' => 53%N :: digits_of_uint d'
  | Decimal.D6 d' => 54%N :: digits_of_uint d'
  | Decimal.D7 d' => 55%N :: digits_of_uint d'
  | Decimal.D8 d' => 56%N :: digits_of_uint d'
  | Decimal.D9 d' => 57%N :: digits_of_uint d'
  end.

Definition decimal (n : N) : jsstring := digits_of_uint (N.to_uint n).

End JsString.

Import JsString.

(* ================================================================== *)
(** ** JavaScript numbers *)

Module JsNumber.

(** A Number is a binary64 value. *)
Definition number := spec_float.
Definition prec : Z := 53.
Definition emax : Z := 1024.

(** The values that are binary64 numbers: canonical mantissa and exponent. *)
Definition is_double (x : number) : bool := valid_binary prec emax x.

(** The Number closest to a non-zero integer (round to nearest, ties to
    even); an integer literal of the source denotes this value. *)
Definition of_Z (z : Z) : number := binary_normalize prec emax z 0 false.

Definition one : number := Eval vm_compute in of_Z 1.

(** [Number.MAX_SAFE_INTEGER] is 2^53 - 1. *)
Definition MAX_SAFE_INTEGER : number := Eval vm_compute in of_Z (2 ^ 53 - 1).

(** [isNaN(x)], [x < y] and [x > y] on Numbers. *)
Definition isNaN (x : number) : bool :=
  match x with S754_nan => true | _ => false end.
Definition lt (x y : number) : bool := SFltb x y.
Definition gt (x y : number) : bool := SFltb y x.

(** The real number a finite Number stands for: m * 2^e with its sign. *)
Definition real_value (x : number) : option Q :=
  match x with
  | S754_zero _ => Some (inject_Z 0)
  | S754_finite s m e =>
      let mag :=
        match e with
        | Z0 => inject_Z (Zpos m)
        | Zpos p => inject_Z (Zpos m * 2 ^ Zpos p)
        | Zneg p => Qmake (Zpos m) (2 ^ p)%positive
        end in
      Some (if s then Qopp mag else mag)
  | S754_infinity _ | S754_nan => None
  end.

Definition truncate (q : Q) : Z :=
  if Qle_bool (inject_Z 0) q then Qfloor q else Qceiling q.

(** [Number.isInteger(x)]: [x] is finite and equal to its truncation. *)
Definition Number_isInteger (x : number) : bool :=
  match real_value x with
  | None => false
  | Some q => Qeq_bool (inject_Z (truncate q)) q
  end.

(** *** [parseInt(string)] with no radix argument *)

Definition digit_value (radix : Z) (u : code_unit) : option Z :=
  let v :=
    if ((48 <=? u) && (u <=? 57))%N then Some (Z.of_N u - 48)%Z
    else if ((97 <=? u) && (u <=? 122))%N then Some (Z.of_N u - 87)%Z
    else if ((65 <=? u) && (u <=? 90))%N then Some (Z.of_N u - 55)%Z
    else None in
  match v with
  | Some d => if (d <? radix)%Z then Some d else None
  | None => None
  end.

(** The longest prefix made of digits of the radix. *)
Fixpoint radix_digits (radix : Z) (s : jsstring) : list Z :=
  match s with
  | [] => []
  | u :: s' =>
      match digit_value radix u with
      | Some d => d :: radix_digits radix s'
      | None => []
      end
  end.

Definition math_int (radix : Z) (ds : list Z) : Z :=
  fold_left (fun acc d => acc * radix + d)%Z ds 0%Z.

Definition strip_sign (s : jsstring) : bool * jsstring :=
  match s with
  | u :: r =>
      if (u =? 45)%N then (true, r)
      else if (u =? 43)%N then (false, r)
      else (false, s)
  | [] => (false, s)
  end.

Definition strip_hex_prefix (s : jsstring) : Z * jsstring :=
  match s with
  | z :: x :: r =>
      if ((z =? 48) && ((x =? 120) || (x =? 88)))%N then (16%Z, r)
      else (10%Z, s)
  | _ => (10%Z, s)
  end.

Definition parseInt (input : jsstring) : number :=
  let '(negative, s1) := strip_sign (trimStart input) in
  let '(radix, s2) := strip_hex_prefix s1 in
  match radix_digits radix s2 with
  | [] => S754_nan
  | ds =>
      let mathInt := math_int radix ds in
      if (mathInt =? 0)%Z then S754_zero negative
      else of_Z (if negative then - mathInt else mathInt)%Z
  end.

End JsNumber.

Import JsNumber.

(* ================================================================== *)
(** ** Effects: console, file system, collaborators *)

Module Effects.

(** A thrown value.  The library and [fs] reject with [Error] objects, so a
    thrown value is modelled by the two fields the code and the console
    read. *)
Record js_error := mkError { name : jsstring; message : jsstring }.

Definition Error (msg : jsstring) : js_error := mkError (js "Error") msg.
Definition ReferenceError (msg : jsstring) : js_error :=
  mkError (js "ReferenceError") msg.

(** The two client handles of the library. *)
Inductive client := Mainnet | Testnet.

(** What [client.chain().info()] resolves to (the fields the code reads). *)
Record chain_info := mkChainInfo { hash : jsstring; schemeID : jsstring }.

(** What a run does to the outside, in order. *)
Inductive effect :=
| Stdout (chunk : jsstring)
| Stderr (chunk : jsstring)
| NewClient (c : client)
| ChainInfoRequest (c : client)
| Encrypt (round : number) (plaintext : list N) (c : client)
| WriteFile (filename contents : jsstring).

(** The platform and the collaborators of one run: how the runtime prints
    a Number in a template literal and an object on the console, the ISO
    string of the clock when [new Date()] is evaluated, and what the
    chain-info query, the encryption primitive and the file write answer
    ([inl] and [Some] are failures). *)
Record Env := mkEnv {
  Number_toString : number -> jsstring;
  inspect : js_error -> jsstring;
  Date_toISOString : jsstring;
  chain_info_reply : client -> js_error + chain_info;
  timelockEncrypt_reply : number -> list N -> client -> js_error + jsstring;
  writeFileSync_reply : jsstring -> jsstring -> option js_error
}.

(** How a computation ends: a value, a thrown error, or [process.exit]. *)
Inductive outcome (A : Type) :=
| Return (a : A)
| Throw (e : js_error)
| Exit (code : Z).
Arguments Return {A} a.
Arguments Throw {A} e.
Arguments Exit {A} code.

(** A computation: its outcome and the effects it had. *)
Definition M (A : Type) : Type := outcome A * list effect.

Definition ret {A} (a : A) : M A := (Return a, []).
Definition throw {A} (e : js_error) : M A := (Throw e, []).
Definition process_exit {A} (code : Z) : M A := (Exit code, []).
Definition emit (e : effect) : M unit := (Return tt, [e]).

Definition bind {A B} (m : M A) (k : A -> M B) : M B :=
  match m with
  | (Return a, t) => let '(r, t') := k a in (r, t ++ t')
  | (Throw e, t) => (Throw e, t)
  | (Exit c, t) => (Exit c, t)
  end.

(** [try { m } catch (error) { handler }]: only a throw is caught. *)
Definition try_catch {A} (m : M A) (handler : js_error -> M A) : M A :=
  match m with
  | (Throw e, t) => let '(r, t') := handler e in (r, t ++ t')
  | other => other
  end.

Definition when (b : bool) (m : M unit) : M unit := if b then m else ret tt.

Definition console_log (s : jsstring) : M unit := emit (Stdout (s ++ [10%N])).
Definition console_error (s : jsstring) : M unit := emit (Stderr (s ++ [10%N])).
Definition process_stdout_write (s : jsstring) : M unit := emit (Stdout s).

(** What a trace put on the standard streams, and the rest of it. *)
Definition stdout_chunks (t : list effect) : list jsstring :=
  flat_map (fun e => match e with Stdout s => [s] | _ => [] end) t.
Definition stderr_chunks (t : list effect) : list jsstring :=
  flat_map (fun e => match e with Stderr s => [s] | _ => [] end) t.
Definition stdout_bytes (t : list effect) : list N :=
  flat_map utf8_encode (stdout_chunks t).
Definition files_written (t : list effect) : list (jsstring * jsstring) :=
  flat_map (fun e => match e with WriteFile f c => [(f, c)] | _ => [] end) t.

(** Client construction and the two remote calls. *)
Definition is_network (e : effect) : bool :=
  match e with
  | NewClient _ | ChainInfoRequest _ | Encrypt _ _ _ => true
  | _ => false
  end.
Definition network_calls (t : list effect) : list effect := filter is_network t.

End Effects.

Import Effects.

Declare Scope js_scope.
Delimit Scope js_scope with js.
Notation "x <- m ;; k" := (bind m (fun x => k))
  (at level 61, m at next level, right associativity) : js_scope.
Notation "m ;; k" := (bind m (fun _ => k))
  (at level 61, right associativity) : js_scope.

Local Open Scope js_scope.

(** The line feed of the source's [\n] escapes. *)
Definition nl : jsstring := [10%N].

(** A template literal's lines, each followed by a line feed. *)
Definition unlines (ls : list jsstring) : jsstring :=
  flat_map (fun l => l ++ nl) ls.

(* ================================================================== *)
(** ** The library calls of [../dist/index.js] and of [fs] *)

Module Collaborators.

Definition mainnetClient : M client := emit (NewClient Mainnet) ;; ret Mainnet.
Definition testnetClient : M client := emit (NewClient Testnet) ;; ret Testnet.

(** [await timelockEncrypt(round, buf, client)] *)
Definition timelockEncrypt (env : Env) (round : number) (buf : list N)
  (c : client) : M jsstring :=
  emit (Encrypt round buf c) ;;
  match timelockEncrypt_reply env round buf c with
  | inl e => throw e
  | inr encrypted => ret encrypted
  end.

(** [await client.chain().info()] *)
Definition chain_info_of (env : Env) (c : client) : M chain_info :=
  emit (ChainInfoRequest c) ;;
  match chain_info_reply env c with
  | inl e => throw e
  | inr info => ret info
  end.

(** [fs.writeFileSync(filename, contents)]; the file exists once the call
    returns. *)
Definition writeFileSync (env : Env) (f contents : jsstring) : M unit :=
  match writeFileSync_reply env f contents with
  | Some e => throw e
  | None => emit (WriteFile f contents)
  end.

End Collaborators.

Import Collaborators.

(* ================================================================== *)
(** ** examples/encrypt-arbitrary-text.js *)

Module EncryptArbitraryText.

(** [!text || text.trim().length === 0], the test both entry points apply
    to the text. *)
Definition text_is_blank (text : jsstring) : bool :=
  negb (truthy text) || (List.length (trim text) =? 0)%nat.

Definition encryptText (env : Env) (text : jsstring) (roundNumber : number)
  (c : client) : M jsstring :=
  if lt roundNumber one then
    throw (Error (js "Round number must be at least 1"))
  else if text_is_blank text then
    throw (Error (js "Text cannot be empty"))
  else
    console_log (js "🔐 Encrypting: " ++ dquote ++ text ++ dquote) ;;
    console_log (js "🎯 Target round: " ++ Number_toString env roundNumber) ;;
    try_catch
      (let textBuffer := utf8_encode text in
       encrypted <- timelockEncrypt env roundNumber textBuffer c ;;
       console_log (js "✅ Encryption successful!") ;;
       ret encrypted)
      (fun error =>
         console_error (js "❌ Encryption failed: " ++ inspect env error) ;;
         throw error).

Definition validateRound (round : number) : outcome number :=
  if negb (Number_isInteger round) then
    Throw (Error (js "Round number must be an integer"))
  else if lt round one then
    Throw (Error (js "Round number must be at least 1"))
  else if gt round MAX_SAFE_INTEGER then
    Throw (Error (js "Round number is too large"))
  else Return round.

End EncryptArbitraryText.

(* ================================================================== *)
(** ** examples/cli-encrypt.js *)

Module CliEncrypt.

Import EncryptArbitraryText.

Record Options := mkOptions {
  text : jsstring;
  round : number;
  output : option jsstring;
  testnet : bool;
  verbose : bool;
  stdout : bool;
  quiet : bool
}.

Definition set_output (o : Options) (v : option jsstring) : Options :=
  mkOptions (text o) (round o) v (testnet o) (verbose o) (stdout o) (quiet o).
Definition set_testnet (o : Options) (v : bool) : Options :=
  mkOptions (text o) (round o) (output o) v (verbose o) (stdout o) (quiet o).
Definition set_verbose (o : Options) (v : bool) : Options :=
  mkOptions (text o) (round o) (output o) (testnet o) v (stdout o) (quiet o).
Definition set_stdout (o : Options) (v : bool) : Options :=
  mkOptions (text o) (round o) (output o) (testnet o) (verbose o) v (quiet o).
Definition set_quiet (o : Options) (v : bool) : Options :=
  mkOptions (text o) (round o) (output o) (testnet o) (verbose o) (stdout o) v.

(** Truthiness of [options.output]: [null] and the empty string are falsy. *)
Definition output_truthy (o : Options) : bool :=
  match output o with
  | None => false
  | Some f => truthy f
  end.

Definition help_lines : list jsstring :=
  [ js "🔐 TLOCK-JS CLI: Encrypt Text from Command Line";
    js "================================================";
    [];
    js "USAGE:";
    js "  node examples/cli-encrypt.js " ++ dquote ++ js "text" ++ dquote ++ js " round [options]";
    [];
    js "ARGUMENTS:";
    js "  text    The text to encrypt (use quotes for spaces)";
    js "  round   Target drand round number (must be >= 1)";
    [];
    js "OPTIONS:";
    js "  -o, --output <file>    Output filename (default: auto-generated)";
    js "  -s, --stdout           Output encrypted content to stdout (for piping)";
    js "  -q, --quiet            Suppress all output except encrypted content (use with --stdout)";
    js "  -t, --testnet          Use testnet instead of mainnet";
    js "  -v, --verbose          Show detailed information";
    js "  -h, --help             Show this help message";
    [];
    js "EXAMPLES:";
    js "  # Basic encryption";
    js "  node examples/cli-encrypt.js " ++ dquote ++ js "Hello World" ++ dquote ++ js " 11645812";
    js "  ";
    js "  # Save to specific file";
    js "  node examples/cli-encrypt.js " ++ dquote ++ js "Secret message" ++ dquote ++ js " 11645812 --output secret.age";
    js "  ";
    js "  # Output to stdout (for piping to other tools)";
    js "  node examples/cli-encrypt.js " ++ dquote ++ js "Secret message" ++ dquote ++ js " 11645812 --stdout";
    js "  ";
    js "  # Quiet stdout output (only encrypted content)";
    js "  node examples/cli-encrypt.js " ++ dquote ++ js "Secret message" ++ dquote ++ js " 11645812 --stdout --quiet";
    js "  ";
    js "  # Use testnet";
    js "  node examples/cli-encrypt.js " ++ dquote ++ js "Test message" ++ dquote ++ js " 20000 --testnet";
    js "  ";
    js "  # Verbose output";
    js "  node examples/cli-encrypt.js " ++ dquote ++ js "My text" ++ dquote ++ js " 11650000 --verbose";
    [];
    js "NETWORKS:";
    js "  Mainnet (default): 52db9ba70e0cc0f6eaf7803dd07447a1f5477735fd3f661792ba94600c84e971";
    js "  Testnet:           7672797f548f3f4748ac4bf3352fc6c6b6468c9ad40ad456a397545c6e2df5bf";
    [];
    js "PIPING EXAMPLES:";
    js "  # Save encrypted content to file";
    js "  node examples/cli-encrypt.js " ++ dquote ++ js "My secret" ++ dquote ++ js " 11645812 --stdout > secret.age";
    js "  ";
    js "  # Encrypt and immediately decrypt (for testing)";
    js "  node examples/cli-encrypt.js " ++ dquote ++ js "Test" ++ dquote ++ js " 11645812 --stdout | node examples/cli-decrypt.js";
    js "  ";
    js "  # Encrypt and compress";
    js "  node examples/cli-encrypt.js " ++ dquote ++ js "Long text" ++ dquote ++ js " 11645812 --stdout | gzip > secret.age.gz" ].

Definition showHelp : M unit := console_log (nl ++ unlines help_lines).

Definition showUsage : M unit :=
  console_log
    (nl ++ unlines
       [ js "USAGE: node examples/cli-encrypt.js " ++ dquote ++ js "text"
           ++ dquote ++ js " round [options]";
         js "Try: node examples/cli-encrypt.js --help for more information" ]).

(** [arg === long || arg === short] *)
Definition is_flag (arg : jsstring) (long short : string) : bool :=
  eqb arg (js long) || eqb arg (js short).

(** The loop over [args[2..]]: [rest] is what lies from index [i] on. *)
Fixpoint parse_flags (rest : list jsstring) (options : Options) : M Options :=
  match rest with
  | [] => ret options
  | arg :: rest' =>
      if is_flag arg "--output" "-o" then
        match rest' with
        | next :: rest'' => parse_flags rest'' (set_output options (Some next))
        | [] =>
            console_error (js "❌ Error: --output requires a filename") ;;
            process_exit 1
        end
      else if is_flag arg "--testnet" "-t" then
        parse_flags rest' (set_testnet options true)
      else if is_flag arg "--verbose" "-v" then
        parse_flags rest' (set_verbose options true)
      else if is_flag arg "--stdout" "-s" then
        parse_flags rest' (set_stdout options true)
      else if is_flag arg "--quiet" "-q" then
        parse_flags rest' (set_quiet options true)
      else if startsWith arg (js "--") then
        console_error (js "❌ Error: Unknown flag: " ++ arg) ;;
        process_exit 1
      else parse_flags rest' options
  end.

(** The checks made on the options once the flags are read. *)
Definition validate_options (options : Options) : M Options :=
  if stdout options && output_truthy options then
    console_error (js "❌ Error: Cannot use both --stdout and --output") ;;
    process_exit 1
  else if quiet options && negb (stdout options) then
    console_error (js "❌ Error: --quiet can only be used with --stdout") ;;
    process_exit 1
  else ret options.

Definition parseArgs (process_argv : list jsstring) : M Options :=
  let args := skipn 2 process_argv in
  if includes args (js "--help") || includes args (js "-h") then
    showHelp ;; process_exit 0%Z
  else
    match args with
    | text :: round_token :: flags =>
        let round := parseInt round_token in
        if text_is_blank text then
          console_error (js "❌ Error: Text cannot be empty") ;;
          process_exit 1
        else if isNaN round || lt round one then
          console_error (js "❌ Error: Round must be a positive integer") ;;
          process_exit 1
        else
          options <- parse_flags flags
                       (mkOptions text round None false false false false) ;;
          validate_options options
    | _ =>
        console_error (js "❌ Error: Missing required arguments") ;;
        showUsage ;;
        process_exit 1
    end.

(** The object [encryptText] resolves to. *)
Record Encrypted := mkEncrypted {
  encrypted : jsstring;
  filename : option jsstring
}.

(** [(encrypted.length / 1024).toFixed(2)]: the quotient is exact in
    binary64, and [toFixed] rounds its hundredths half up. *)
Definition kilobytes_toFixed2 (len : nat) : jsstring :=
  let n := ((N.of_nat len * 200 + 1024) / 2048)%N in
  decimal (n / 100) ++ js "."
    ++ [(48 + (n mod 100) / 10)%N; (48 + (n mod 100) mod 10)%N].

(** [new Date().toISOString().replace(/[:.]/g, '-').slice(0, -5)] *)
Definition timestamp_of (iso : jsstring) : jsstring :=
  slice_0_neg 5 (replace_colon_period iso).

Definition auto_filename (env : Env) (options : Options) : jsstring :=
  let timestamp := timestamp_of (Date_toISOString env) in
  let network := if testnet options then js "testnet" else js "mainnet" in
  js "encrypted-" ++ network ++ js "-round-"
    ++ Number_toString env (round options) ++ js "-" ++ timestamp ++ js ".age".

(** [let filename = options.output; if (!filename) { ... }] *)
Definition output_filename (env : Env) (options : Options) : jsstring :=
  if output_truthy options then
    match output options with Some f => f | None => [] end
  else auto_filename env options.

Definition encryptText (env : Env) (options : Options) : M Encrypted :=
  let round_str := Number_toString env (round options) in
  try_catch
    (c <- (if testnet options then testnetClient else mainnetClient) ;;
     let networkName :=
       if testnet options then js "testnet" else js "mainnet (quicknet)" in
     when (negb (quiet options))
       (if verbose options then
          console_log (js "🔐 Encrypting text for " ++ networkName) ;;
          console_log (js "📝 Text: " ++ dquote ++ text options ++ dquote) ;;
          console_log (js "🎯 Round: " ++ round_str) ;;
          console_log (js "🌐 Network: " ++ networkName) ;;
          try_catch
            (chainInfo <- chain_info_of env c ;;
             console_log (js "🔗 Chain Hash: " ++ hash chainInfo) ;;
             console_log (js "📋 Scheme: " ++ schemeID chainInfo))
            (fun error =>
               console_log
                 (js "⚠️  Could not fetch chain info: " ++ message error))
        else
          console_log (js "🔐 Encrypting: " ++ dquote ++ text options ++ dquote) ;;
          console_log (js "🎯 Target round: " ++ round_str)) ;;
     let textBuffer := utf8_encode (text options) in
     encrypted <- timelockEncrypt env (round options) textBuffer c ;;
     when (negb (quiet options)) (console_log (js "✅ Encryption successful!")) ;;
     (if stdout options then
        when (negb (quiet options))
          (console_log (js "📤 Outputting encrypted content to stdout:") ;;
           console_log (repeat (js "─") 50)) ;;
        process_stdout_write encrypted ;;
        when (negb (quiet options))
          (console_log (repeat (nl ++ js "─") 50))
      else
        let filename := output_filename env options in
        writeFileSync env filename encrypted ;;
        when (negb (quiet options))
          (console_log (js "📁 Saved to: " ++ filename) ;;
           console_log (js "⏰ Can be decrypted after round " ++ round_str
                          ++ js " is reached") ;;
           when (verbose options)
             (console_log (nl ++ js "📊 File Details:") ;;
              console_log (js "   Size: "
                             ++ kilobytes_toFixed2 (List.length encrypted)
                             ++ js " KB") ;;
              console_log (js "   Format: Age encryption with timelock") ;;
              console_log (js "   Filekey Hash: Included for verification")))) ;;
     ret (mkEncrypted encrypted
            (if stdout options then None
             else if output_truthy options then output options
             else Some (js "auto-generated"))))
    (fun error =>
       when (negb (quiet options))
         (console_error (js "❌ Encryption failed: " ++ message error) ;;
          when (verbose options)
            (console_error (js "Full error: " ++ inspect env error))) ;;
       throw error).

(** In [main] the name [options] is declared by [const] inside the [try]
    block; the [catch] block is outside its scope, and no outer binding of
    the name exists, so reading it there throws a [ReferenceError]. *)
Definition options_in_catch_block : M Options :=
  throw (ReferenceError (js "options is not defined")).

(** The statements of [main]'s [try] block that follow [parseArgs]. *)
Definition main_after_parse (env : Env) (options : Options) : M unit :=
  when (negb (quiet options))
    (console_log (js "🚀 TLOCK-JS CLI Encryption Tool") ;;
     console_log (js "================================" ++ nl)) ;;
  _ <- encryptText env options ;;
  when (negb (quiet options))
    ((if stdout options then
        console_log (nl ++ js "🎉 Done! Encrypted content output to stdout.") ;;
        console_log
          (nl ++ js "💡 You can pipe this output to other tools or save to file.")
      else
        console_log
          (nl ++ js "🎉 Done! Your text has been encrypted and saved.")) ;;
     console_log (nl ++ js "💡 To decrypt later, use:") ;;
     console_log
       (js "   const decrypted = await timelockDecrypt(encryptedContent, client);")).

Definition main (env : Env) (process_argv : list jsstring) : M unit :=
  try_catch
    (options <- parseArgs process_argv ;;
     main_after_parse env options)
    (fun error =>
       options <- options_in_catch_block ;;
       when (negb (quiet options))
         (console_error (nl ++ js "💥 Fatal error: " ++ message error)) ;;
       process_exit 1).

End CliEncrypt.


(* ================================================================== *)
(** ** Vocabulary of the statements *)

Module Vocabulary.

Import EncryptArbitraryText CliEncrypt.

(** The Number [x] stands for the integer [z]. *)
Definition denotes (x : number) (z : Z) : Prop :=
  exists q, real_value x = Some q /\ Qeq q (inject_Z z).

(** Neither [--help] nor [-h] occurs among the arguments. *)
Definition no_help (args : list jsstring) : Prop :=
  includes args (js "--help") || includes args (js "-h") = false.

(** The options the flag loop starts from. *)
Definition initial_options (text round_token : jsstring) : Options :=
  mkOptions text (parseInt round_token) None false false false false.

(** The flags the loop knows, in both forms. *)
Definition recognized (arg : jsstring) : bool :=
  is_flag arg "--output" "-o" || is_flag arg "--testnet" "-t"
  || is_flag arg "--verbose" "-v" || is_flag arg "--stdout" "-s"
  || is_flag arg "--quiet" "-q".

(** How the loop reads one token. *)
Inductive token_kind :=
| KOutput | KTestnet | KVerbose | KStdout | KQuiet | KUnknownLong | KIgnored.

Definition classify (arg : jsstring) : token_kind :=
  if is_flag arg "--output" "-o" then KOutput
  else if is_flag arg "--testnet" "-t" then KTestnet
  else if is_flag arg "--verbose" "-v" then KVerbose
  else if is_flag arg "--stdout" "-s" then KStdout
  else if is_flag arg "--quiet" "-q" then KQuiet
  else if startsWith arg (js "--") then KUnknownLong
  else KIgnored.

Definition unknown_flag_exit (arg : jsstring) : M Options :=
  (Exit 1%Z, [Stderr (js "❌ Error: Unknown flag: " ++ arg ++ nl)]).

(** The handle [encryptText] builds for the chosen network. *)
Definition client_of (o : Options) : client :=
  if testnet o then Testnet else Mainnet.

(** The answer of the encryption primitive in a run with options [o]. *)
Definition encrypt_reply (env : Env) (o : Options) : js_error + jsstring :=
  timelockEncrypt_reply env (round o) (utf8_encode (text o)) (client_of o).

(** The two separator lines written around the artifact. *)
Definition separator_before : jsstring := repeat (js "─") 50 ++ nl.
Definition separator_after : jsstring := repeat (nl ++ js "─") 50 ++ nl.

(** A code unit that is neither a colon nor a period. *)
Definition filesystem_safe (u : code_unit) : bool :=
  negb ((u =? 58) || (u =? 46))%N.

End Vocabulary.

(* ================================================================== *)
(** ** Concrete environments and command lines *)

Module Samples.

Import CliEncrypt Vocabulary.

(** Decimal rendering of the integral Numbers the sample runs use. *)
Definition sample_toString (x : number) : jsstring :=
  match real_value x with
  | Some q => decimal (Z.to_N (truncate q))
  | None => js "NaN"
  end.

Definition sample_info : chain_info :=
  mkChainInfo
    (js "52db9ba70e0cc0f6eaf7803dd07447a1f5477735fd3f661792ba94600c84e971")
    (js "bls-unchained-g1-rfc9380").

Definition fetch_failed : js_error := Error (js "fetch failed").
Definition network_unreachable : js_error := Error (js "network unreachable").
Definition artifact : jsstring := js "-----BEGIN AGE ENCRYPTED FILE-----".

(** A run where the chain-info query answers iff [info_ok] and the
    encryption primitive answers with an armored payload iff [encrypt_ok]. *)
Definition sample_env (info_ok encrypt_ok : bool) : Env :=
  mkEnv sample_toString
        (fun e => name e ++ js ": " ++ message e)
        (js "2026-11-02T09:58:12.345Z")
        (fun _ => if info_ok then inr sample_info else inl fetch_failed)
        (fun _ _ _ => if encrypt_ok then inr artifact
                      else inl network_unreachable)
        (fun _ _ => None).

Definition all_up : Env := sample_env true true.
Definition info_down : Env := sample_env false true.
Definition encrypt_down : Env := sample_env true false.

(** [process.argv] of [node examples/cli-encrypt.js <rest>]. *)
Definition argv (rest : list string) : list jsstring :=
  map js ("node" :: "examples/cli-encrypt.js" :: rest)%string.

Definition hello_100 (flags : list string) : list jsstring :=
  argv ("Hello" :: "100" :: flags)%string.

(** The options [Hello 100] parses to before any flag is read. *)
Definition hello_options : Options := initial_options (js "Hello") (js "100").

Definition quiet_stream_argv : list jsstring :=
  hello_100 ["--stdout"; "--quiet"]%string.
Definition quiet_stream_options : Options :=
  set_quiet (set_stdout hello_options true) true.

Definition stream_argv : list jsstring := hello_100 ["--stdout"]%string.
Definition stream_options : Options := set_stdout hello_options true.

Definition verbose_argv : list jsstring := hello_100 ["--verbose"]%string.
Definition verbose_options : Options := set_verbose hello_options true.

Definition plain_argv : list jsstring := hello_100 [].

Definition short_flag_argv : list jsstring := hello_100 ["-x"]%string.
Definition bogus_flag_argv : list jsstring :=
  hello_100 ["--testnet"; "--bogus"; "-v"]%string.

Definition fractional_argv : list jsstring := argv ["Hello"; "3.7"]%string.
Definition beyond_safe_argv : list jsstring :=
  argv ["Hello"; "9007199254740993"]%string.
Definition zero_round_argv : list jsstring := argv ["Hello"; "0"]%string.

Definition quiet_alone_argv : list jsstring := hello_100 ["--quiet"]%string.
Definition stream_and_file_argv : list jsstring :=
  hello_100 ["--stdout"; "--output"; "f.age"]%string.
Definition stream_and_empty_path_argv : list jsstring :=
  map js ["node"; "examples/cli-encrypt.js"; "Hello"; "100"; "--stdout"; "-o";
          EmptyString]%string.

End Samples.

(* ================================================================== *)
(** ** examples/encrypt-arbitrary-text.js: the examples and [main] *)

Module ExampleScript.

Import EncryptArbitraryText.

(** [console.error(label, error)] *)
Definition console_error_with (env : Env) (label : string) (error : js_error)
  : M unit :=
  console_error (js label ++ js " " ++ inspect env error).

Definition exampleMainnet (env : Env) : M unit :=
  console_log (nl ++ js "=== Example 1: Mainnet Quicknet ===") ;;
  let text := js "This is a secret message for mainnet!" in
  let round := of_Z 11645812 in
  try_catch
    (c <- mainnetClient ;;
     encrypted <- encryptText env text round c ;;
     let filename :=
       js "mainnet-round-" ++ Number_toString env round ++ js ".age" in
     writeFileSync env filename encrypted ;;
     console_log (js "📁 Saved to: " ++ filename) ;;
     console_log (js "⏰ Can be decrypted after round "
                    ++ Number_toString env round ++ js " is reached"))
    (fun error => console_error_with env "Mainnet example failed:" error).

Definition exampleFutureRound (env : Env) : M unit :=
  console_log (nl ++ js "=== Example 2: Future Round ===") ;;
  let text := js "This message will be decryptable much later!" in
  let round := of_Z 12000000 in
  try_catch
    (c <- mainnetClient ;;
     encrypted <- encryptText env text round c ;;
     let filename :=
       js "future-round-" ++ Number_toString env round ++ js ".age" in
     writeFileSync env filename encrypted ;;
     console_log (js "📁 Saved to: " ++ filename) ;;
     console_log (js "⏰ Can be decrypted after round "
                    ++ Number_toString env round ++ js " is reached") ;;
     console_log
       (js "💡 Note: This is a very future round, so decryption will be much later"))
    (fun error => console_error_with env "Future round example failed:" error).

Definition exampleTestnet (env : Env) : M unit :=
  console_log (nl ++ js "=== Example 3: Testnet (Shorter Wait) ===") ;;
  let text := js "Testnet message with shorter timelock!" in
  let round := of_Z 20000 in
  try_catch
    (c <- testnetClient ;;
     encrypted <- encryptText env text round c ;;
     let filename :=
       js "testnet-round-" ++ Number_toString env round ++ js ".age" in
     writeFileSync env filename encrypted ;;
     console_log (js "📁 Saved to: " ++ filename) ;;
     console_log (js "⏰ Can be decrypted after round "
                    ++ Number_toString env round ++ js " is reached") ;;
     console_log (js "🧪 This is on testnet, so rounds may be available sooner"))
    (fun error =>
       console_error_with env "Testnet example failed:" error ;;
       console_log
         (js "⚠️  This is normal if testnet endpoints are not available")).

Definition exampleCustom (env : Env) (text : jsstring) (round : number)
  : M unit :=
  console_log (nl ++ js "=== Example 4: Custom Text and Round ===") ;;
  try_catch
    (c <- mainnetClient ;;
     encrypted <- encryptText env text round c ;;
     let filename :=
       js "custom-round-" ++ Number_toString env round ++ js ".age" in
     writeFileSync env filename encrypted ;;
     console_log (js "📁 Saved to: " ++ filename) ;;
     console_log (js "⏰ Can be decrypted after round "
                    ++ Number_toString env round ++ js " is reached"))
    (fun error => console_error_with env "Custom example failed:" error).

(** [public_key] is the [public_key] field of the object the query resolves
    to, which the record of the two other fields does not carry. *)
Definition getCurrentRoundInfo (env : Env) (public_key : jsstring)
  (c : client) : M unit :=
  try_catch
    (chainInfo <- chain_info_of env c ;;
     console_log (nl ++ js "📊 Current Chain Information:") ;;
     console_log (js "   Chain Hash: " ++ hash chainInfo) ;;
     console_log (js "   Scheme: " ++ schemeID chainInfo) ;;
     console_log (js "   Public Key: " ++ firstn 32 public_key ++ js "...") ;;
     console_log (js "   💡 To get current round, check drand network status"))
    (fun error => console_error_with env "Failed to get chain info:" error).

Definition customText : jsstring :=
  js "Hello, this is my custom secret message!".
Definition customRound : number := of_Z 11650000.

Definition main (env : Env) (public_key : jsstring) : M unit :=
  console_log (js "🚀 TLOCK-JS: Encrypt Arbitrary Text Examples") ;;
  console_log (js "=============================================" ++ nl) ;;
  try_catch
    (c <- mainnetClient ;;
     getCurrentRoundInfo env public_key c ;;
     exampleMainnet env ;;
     exampleFutureRound env ;;
     exampleTestnet env ;;
     exampleCustom env customText customRound ;;
     console_log (nl ++ js "=== Summary ===") ;;
     console_log (js "✅ Created encrypted files for different rounds") ;;
     console_log
       (js "✅ Each file can only be decrypted after its target round") ;;
     console_log (js "✅ Files include filekey hash for verification") ;;
     console_log (nl ++ js "📚 To decrypt later, use:") ;;
     console_log
       (js "   const decrypted = await timelockDecrypt(encryptedContent, client);") ;;
     console_log (nl ++ js "🔗 For more info: https://github.com/drand/tlock-js"))
    (fun error => console_error_with env "❌ Main execution failed:" error).

(** [main().catch(console.error)], what the file runs when executed. *)
Definition script (env : Env) (public_key : jsstring) : M unit :=
  try_catch (main env public_key)
            (fun error => console_error (inspect env error)).

End ExampleScript.

(* ================================================================== *)
(** ** examples/simple-usage.js *)

Module SimpleUsage.

Definition text : jsstring := js "Hello, this is my secret message!".
Definition round : number := of_Z 11645812.

Definition simpleEncrypt (env : Env) : M jsstring :=
  try_catch
    (c <- mainnetClient ;;
     console_log (js "🔐 Encrypting: " ++ dquote ++ text ++ dquote) ;;
     console_log (js "🎯 For round: " ++ Number_toString env round) ;;
     encrypted <- timelockEncrypt env round (utf8_encode text) c ;;
     console_log (js "✅ Encryption successful!") ;;
     let filename :=
       js "secret-message-round-" ++ Number_toString env round ++ js ".age" in
     writeFileSync env filename encrypted ;;
     console_log (js "📁 Saved to: " ++ filename) ;;
     console_log (js "⏰ Can be decrypted after round "
                    ++ Number_toString env round ++ js " is reached") ;;
     ret encrypted)
    (fun error =>
       console_error (js "❌ Encryption failed: " ++ inspect env error) ;;
       throw error).

(** [simpleEncrypt().catch(console.error)], the last line of the file. *)
Definition script (env : Env) : M unit :=
  try_catch (simpleEncrypt env ;; ret tt)
            (fun error => console_error (inspect env error)).

End SimpleUsage.

(* ================================================================== *)
(** ** More vocabulary: flags and round tokens *)

Module MoreVocabulary.

Import CliEncrypt Vocabulary.

(** [args.includes('--help') || args.includes('-h')] *)
Definition help_requested (args : list jsstring) : bool :=
  includes args (js "--help") || includes args (js "-h").

(** The token [arg] is read by the loop as a token of kind [k]. *)
Definition reads_as (k : token_kind) (arg : jsstring) : bool :=
  match classify arg, k with
  | KOutput, KOutput | KTestnet, KTestnet | KVerbose, KVerbose
  | KStdout, KStdout | KQuiet, KQuiet | KUnknownLong, KUnknownLong
  | KIgnored, KIgnored => true
  | _, _ => false
  end.

(** A token that is one of the four switches or is skipped by the loop. *)
Definition switch_or_ignored (arg : jsstring) : bool :=
  negb (reads_as KOutput arg) && negb (reads_as KUnknownLong arg).

(** The options [o] with every switch set that [flags] holds. *)
Definition with_switches (o : Options) (flags : list jsstring) : Options :=
  mkOptions (text o) (round o) (output o)
    (testnet o || existsb (reads_as KTestnet) flags)
    (verbose o || existsb (reads_as KVerbose) flags)
    (stdout o || existsb (reads_as KStdout) flags)
    (quiet o || existsb (reads_as KQuiet) flags).

Definition is_decimal_digit (u : code_unit) : bool :=
  ((48 <=? u) && (u <=? 57))%N.

(** A token that starts with one of 1..9, goes on with decimal digits and
    then with anything that does not start with a decimal digit. *)
Definition leading_integer (digits rest : jsstring) : Prop :=
  match digits with
  | d :: ds =>
      is_decimal_digit d = true /\ d <> 48%N
      /\ forallb is_decimal_digit ds = true
  | [] => False
  end
  /\ match rest with
     | u :: _ => is_decimal_digit u = false
     | [] => True
     end.

End MoreVocabulary.

(* ================================================================== *)
(** ** More concrete runs *)

Module MoreSamples.

Import CliEncrypt Vocabulary Samples.

Definition disk_full : js_error :=
  Error (js "ENOSPC: no space left on device").

(** Everything answers, but no file can be written. *)
Definition write_down : Env :=
  mkEnv sample_toString
        (fun e => name e ++ js ": " ++ message e)
        (js "2026-11-02T09:58:12.345Z")
        (fun _ => inr sample_info)
        (fun _ _ _ => inr artifact)
        (fun _ _ => Some disk_full).

(** Everything answers, 654 milliseconds later than in [all_up]. *)
Definition later_in_the_second : Env :=
  mkEnv sample_toString
        (fun e => name e ++ js ": " ++ message e)
        (js "2026-11-02T09:58:12.999Z")
        (fun _ => inr sample_info)
        (fun _ _ _ => inr artifact)
        (fun _ _ => None).

Definition help_among_errors_argv : list jsstring :=
  argv ["   "; "zero"; "--bogus"; "--quiet"; "-h"]%string.
Definition text_only_argv : list jsstring := argv ["Hello"]%string.
Definition flag_as_path_argv : list jsstring :=
  hello_100 ["-o"; "--stdout"]%string.
Definition suffixed_round_argv : list jsstring :=
  argv ["Hello"; "100.75 rounds"]%string.
Definition named_file_argv : list jsstring :=
  hello_100 ["--output"; "out.age"]%string.
Definition named_file_options : Options :=
  set_output hello_options (Some (js "out.age")).

End MoreSamples.

(* ================================================================== *)
(** ** The script as a process *)

Module NodeProcess.

Import CliEncrypt.

(** The file ends with [if (require.main === module) { main(); }]: the
    promise of [main] is neither awaited nor given a handler.  The process
    ends with status 0 when [main] ends normally and with [code] after
    [process.exit(code)]; when [main] throws, its promise is rejected with no
    handler attached, and Node, by its default policy for unhandled
    rejections, reports the error on standard error and ends the process with
    status 1.  The wording of that report is the runtime's own: it is a
    parameter here. *)
Definition run_as_script (uncaught_report : js_error -> jsstring) (env : Env)
  (process_argv : list jsstring) : Z * list effect :=
  match main env process_argv with
  | (Return _, t) => (0%Z, t)
  | (Exit code, t) => (code, t)
  | (Throw e, t) => (1%Z, t ++ [Stderr (uncaught_report e)])
  end.

(** The error raised by reading [options] in the [catch] block of [main]. *)
Definition options_not_defined : js_error :=
  ReferenceError (js "options is not defined").

(** A report in the manner of a runtime: the name and message of the error. *)
Definition sample_report (e : js_error) : jsstring :=
  js "Uncaught " ++ name e ++ js ": " ++ message e ++ nl.

End NodeProcess.

(* ================================================================== *)
(** * Properties *)

Import EncryptArbitraryText CliEncrypt Vocabulary Samples.

(** Unfolds the monad and the collaborator calls of a run. *)
Ltac run_m :=
  cbv [showHelp showUsage console_log console_error process_stdout_write
       emit process_exit bind ret throw when try_catch
       options_in_catch_block mainnetClient testnetClient chain_info_of
       writeFileSync timelockEncrypt].

Ltac split_options o :=
  destruct o as [otext oround ooutput otestnet overbose ostdout oquiet];
  cbn [text round output testnet verbose stdout quiet] in *.

Ltac prepare o :=
  unfold encrypt_reply in *; unfold client_of in *; split_options o.

(** Uses what is known of the collaborators' answers, and splits on the
    chain-info answer when nothing is known of it. *)
Ltac case_reply :=
  match goal with
  | H : timelockEncrypt_reply ?e ?r ?b ?c = _
    |- context [timelockEncrypt_reply ?e ?r ?b ?c] => rewrite H
  | H : chain_info_reply ?e ?c = _
    |- context [chain_info_reply ?e ?c] => rewrite H
  | H : writeFileSync_reply ?e ?f ?c = _
    |- context [writeFileSync_reply ?e ?f ?c] => rewrite H
  | |- context [chain_info_reply ?e ?c] =>
      destruct (chain_info_reply e c)
  end.

Ltac run_main :=
  unfold main_after_parse, encryptText;
  cbn [text round output testnet verbose stdout quiet negb];
  run_m; repeat (case_reply; run_m).

(** Splits a list known by its spine into two heads, a middle part to be
    found, and the last eight elements. *)
Ltac split_front :=
  match goal with
  | |- exists pre, ?l = _ =>
      let n := eval cbv in (List.length l - 10)%nat in
      exists (firstn n (skipn 2 l)); reflexivity
  end.

(** ** Strings *)

Lemma eqb_eq (s t : jsstring) : eqb s t = true <-> s = t.
Proof.
  revert t; induction s as [|a s IH]; intros [|b t]; simpl; split;
    try discriminate; try reflexivity.
  - intros H. apply andb_true_iff in H as [Hab Hst].
    apply N.eqb_eq in Hab. apply IH in Hst. now subst.
  - intros H. injection H as -> ->. rewrite N.eqb_refl. simpl. now apply IH.
Qed.






(** ** The effect monad *)

Lemma bind_ret_l {A B} (a : A) (k : A -> M B) : bind (ret a) k = k a.
Proof. unfold bind, ret. now destruct (k a). Qed.

Lemma bind_ret_r {A} (m : M A) : bind m ret = m.
Proof.
  destruct m as [[a|e|c] t]; cbn; try reflexivity. now rewrite app_nil_r.
Qed.

Lemma bind_assoc {A B C} (m : M A) (k : A -> M B) (h : B -> M C) :
  bind (bind m k) h = bind m (fun a => bind (k a) h).
Proof.
  destruct m as [[a|e|c] t]; cbn; try reflexivity.
  destruct (k a) as [[b|e|c] t']; cbn; try reflexivity.
  destruct (h b) as [r t'']. now rewrite app_assoc.
Qed.

(** ** Numbers *)

Lemma digits2_pos_bounds (m : positive) :
  (2 ^ (Zpos (digits2_pos m) - 1) <= Zpos m < 2 ^ Zpos (digits2_pos m))%Z.
Proof.
  induction m as [m IH|m IH|]; simpl digits2_pos.
  - rewrite Pos2Z.inj_succ.
    replace (Z.succ (Zpos (digits2_pos m)) - 1)%Z
      with (Z.succ (Zpos (digits2_pos m) - 1)) by lia.
    rewrite !Z.pow_succ_r by lia. lia.
  - rewrite Pos2Z.inj_succ.
    replace (Z.succ (Zpos (digits2_pos m)) - 1)%Z
      with (Z.succ (Zpos (digits2_pos m) - 1)) by lia.
    rewrite !Z.pow_succ_r by lia. lia.
  - simpl. lia.
Qed.

Lemma bounded_facts (m : positive) (e : Z) :
  bounded prec emax m e = true ->
  (Zpos m < 2 ^ 53 /\ -1074 <= e <= 971 /\ (-1074 < e -> 2 ^ 52 <= Zpos m))%Z.
Proof.
  unfold bounded, canonical_mantissa, fexp, emin, prec, emax.
  intros H. apply andb_true_iff in H as [Hc He].
  apply Z.eqb_eq in Hc. apply Z.leb_le in He.
  pose proof (digits2_pos_bounds m) as [Hlo Hhi].
  set (d := Zpos (digits2_pos m)) in *.
  assert (Hd : (0 < d)%Z) by (subst d; lia).
  destruct (Z.max_spec (d + e - 53) (3 - 1024 - 53)) as [[Hlt Hmax]|[Hle Hmax]];
    rewrite Hmax in Hc.
  - assert (Hd53 : (d <= 53)%Z) by lia.
    pose proof (Z.pow_le_mono_r 2 d 53 ltac:(lia) Hd53).
    repeat split; try lia.
  - assert (Hd53 : d = 53%Z) by lia.
    rewrite Hd53 in Hlo, Hhi. change (53 - 1)%Z with 52%Z in Hlo.
    repeat split; try lia.
Qed.

(** The two Number constants of the code stand for 1 and 2^53 - 1. *)
Lemma constants_denote :
  denotes one 1 /\ denotes MAX_SAFE_INTEGER (2 ^ 53 - 1)
  /\ is_double one = true /\ is_double MAX_SAFE_INTEGER = true.
Proof.
  repeat split; try (eexists; split; reflexivity).
Qed.

Lemma truncate_inject_Z (q : Q) (z : Z) : Qeq q (inject_Z z) -> truncate q = z.
Proof.
  intros H. unfold truncate. rewrite (Qleb_comp _ _ (Qeq_refl _) _ _ H).
  destruct (Qle_bool (inject_Z 0) (inject_Z z)).
  - rewrite (Qfloor_comp _ _ H). apply Qfloor_Z.
  - rewrite (Qceiling_comp _ _ H). apply Qceiling_Z.
Qed.

Lemma Number_isInteger_iff (x : number) :
  Number_isInteger x = true <-> exists z, denotes x z.
Proof.
  unfold Number_isInteger, denotes. split.
  - destruct (real_value x) as [q|]; [|discriminate].
    intros H. apply Qeq_bool_iff in H.
    exists (truncate q), q. split; [reflexivity|]. now symmetry.
  - intros (z & q & Hq & Hz). rewrite Hq. apply Qeq_bool_iff.
    rewrite (truncate_inject_Z q z Hz). now symmetry.
Qed.

Lemma denotes_finite_pos (m : positive) (e z : Z) :
  denotes (S754_finite false m e) z <->
  match e with
  | Z0 => z = Zpos m
  | Zpos p => z = (Zpos m * 2 ^ Zpos p)%Z
  | Zneg p => (z * 2 ^ Zpos p)%Z = Zpos m
  end.
Proof.
  unfold denotes, real_value.
  destruct e as [|p|p].
  - split.
    + intros (q & Hq & Hz). injection Hq as <-.
      unfold Qeq, inject_Z in Hz. cbn [Qnum Qden] in Hz. lia.
    + intros ->. eexists. split; reflexivity.
  - remember (Zpos m * 2 ^ Zpos p)%Z as v. split.
    + intros (q & Hq & Hz). injection Hq as <-.
      unfold Qeq, inject_Z in Hz. cbn [Qnum Qden] in Hz. lia.
    + intros ->. eexists. split; reflexivity.
  - split.
    + intros (q & Hq & Hz). injection Hq as <-.
      unfold Qeq, inject_Z in Hz. cbn [Qnum Qden] in Hz.
      rewrite Pos2Z.inj_pow in Hz. lia.
    + intros H. eexists. split; [reflexivity|].
      unfold Qeq, inject_Z. cbn [Qnum Qden]. rewrite Pos2Z.inj_pow. lia.
Qed.

Lemma denotes_negative (m : positive) (e z : Z) :
  denotes (S754_finite true m e) z -> (z < 0)%Z.
Proof.
  intros (q & Hq & Hz). unfold real_value in Hq. injection Hq as <-.
  assert (Hd : denotes (S754_finite false m e) (- z)).
  { eexists. split; [reflexivity|].
    rewrite inject_Z_opp, <- Hz. symmetry. apply Qopp_involutive. }
  apply denotes_finite_pos in Hd.
  destruct e as [|p|p].
  - lia.
  - pose proof (Z.pow_pos_nonneg 2 (Zpos p)). nia.
  - pose proof (Z.pow_pos_nonneg 2 (Zpos p)). nia.
Qed.

Lemma denotes_zero (s : bool) (z : Z) : denotes (S754_zero s) z -> z = 0%Z.
Proof.
  intros (q & Hq & Hz). injection Hq as <-.
  unfold Qeq, inject_Z in Hz. cbn [Qnum Qden] in Hz. lia.
Qed.

Lemma validateRound_returns (r x : number) :
  validateRound r = Return x <->
  x = r /\ Number_isInteger r = true /\ lt r one = false
  /\ gt r MAX_SAFE_INTEGER = false.
Proof.
  unfold validateRound.
  destruct (Number_isInteger r), (lt r one), (gt r MAX_SAFE_INTEGER); simpl;
    split; try discriminate; try (intros (_ & H1 & H2 & H3); discriminate).
  - intros H. injection H as <-. auto.
  - intros (-> & _). reflexivity.
Qed.

Lemma validateRound_total (r : number) :
  validateRound r = Return r \/ exists msg, validateRound r = Throw (Error msg).
Proof.
  unfold validateRound.
  destruct (Number_isInteger r), (lt r one), (gt r MAX_SAFE_INTEGER); simpl;
    eauto.
Qed.

Lemma compare_cont_Eq_Lt (a b : positive) :
  Pos.compare_cont Eq a b = Lt <-> (Zpos a < Zpos b)%Z.
Proof. change (Pos.compare_cont Eq a b) with (Pos.compare a b). rewrite Pos.compare_lt_iff. lia. Qed.

Lemma finite_pos_in_range (m : positive) (e : Z) :
  bounded prec emax m e = true ->
  (lt (S754_finite false m e) one = false
   /\ gt (S754_finite false m e) MAX_SAFE_INTEGER = false
   /\ Number_isInteger (S754_finite false m e) = true)
  <-> exists z, denotes (S754_finite false m e) z /\ (1 <= z <= 2 ^ 53 - 1)%Z.
Proof.
  intros Hb. apply bounded_facts in Hb as (Hm & He & Hnorm).
  rewrite Number_isInteger_iff.
  unfold lt, gt, SFltb, one, MAX_SAFE_INTEGER, SFcompare.
  change (2 ^ 53)%Z with 9007199254740992%Z in *.
  change (2 ^ 52)%Z with 4503599627370496%Z in *.
  split.
  - destruct (Z.compare_spec e (-52)) as [He52|He52|He52];
      [ | intros (Hlt & _); discriminate | ].
    + subst e. intros (_ & _ & z & Hz). exists z. split; [exact Hz|].
      apply denotes_finite_pos in Hz. cbv beta iota in Hz. lia.
    + destruct (Z.compare_spec 0 e) as [He0|He0|He0];
        [ | intros (_ & Hgt & _); discriminate | ].
      * subst e. intros (_ & _ & z & Hz). exists z. split; [exact Hz|].
        apply denotes_finite_pos in Hz. cbv beta iota in Hz. lia.
      * intros (_ & _ & z & Hz). exists z. split; [exact Hz|].
        apply denotes_finite_pos in Hz.
        destruct e as [|p|p]; lia.
  - intros (z & Hz & Hrange).
    pose proof Hz as Hz'. apply denotes_finite_pos in Hz'.
    destruct (Z.compare_spec e (-52)) as [He52|He52|He52].
    + subst e. specialize (Hnorm ltac:(lia)).
      destruct (Pos.compare_cont Eq m 4503599627370496) eqn:Hc.
      * repeat split; eauto.
      * exfalso. apply (proj1 (compare_cont_Eq_Lt _ _)) in Hc. lia.
      * repeat split; eauto.
    + exfalso. destruct e as [|p|p]; try lia.
      assert (Hp : (2 ^ 53 <= 2 ^ Zpos p)%Z)
        by (apply Z.pow_le_mono_r; lia).
      change (2 ^ 53)%Z with 9007199254740992%Z in Hp. nia.
    + destruct (Z.compare_spec 0 e) as [He0|He0|He0].
      * subst e.
        destruct (Pos.compare_cont Eq 9007199254740991 m) eqn:Hc.
        -- repeat split; eauto.
        -- exfalso. apply (proj1 (compare_cont_Eq_Lt _ _)) in Hc. lia.
        -- repeat split; eauto.
      * exfalso. destruct e as [|p|p]; try lia.
        assert (Hp : (2 ^ 1 <= 2 ^ Zpos p)%Z)
          by (apply Z.pow_le_mono_r; lia).
        change (2 ^ 1)%Z with 2%Z in Hp. nia.
      * repeat split; eauto.
Qed.

(** Claim C2.  For every Number [r], [validateRound(r)] returns [r] itself
    exactly when [r] is an integer between 1 and [Number.MAX_SAFE_INTEGER]
    (2^53 - 1); in every other case it throws an [Error]. *)
Theorem validateRound_iff (r : number) :
  is_double r = true ->
  (validateRound r = Return r
   <-> exists z, denotes r z /\ (1 <= z <= 2 ^ 53 - 1)%Z)
  /\ (validateRound r = Return r
      \/ exists msg, validateRound r = Throw (Error msg)).
Proof.
  intros Hv. split; [|apply validateRound_total].
  rewrite validateRound_returns.
  destruct r as [s|s| |s m e].
  - split.
    + intros (_ & _ & H & _). discriminate.
    + intros (z & Hz & Hr). apply denotes_zero in Hz. lia.
  - split.
    + intros (_ & H & _). discriminate.
    + intros (z & (q & Hq & _) & _). discriminate.
  - split.
    + intros (_ & H & _). discriminate.
    + intros (z & (q & Hq & _) & _). discriminate.
  - destruct s.
    + split.
      * intros (_ & _ & H & _). discriminate.
      * intros (z & Hz & Hr). apply denotes_negative in Hz. lia.
    + rewrite <- (finite_pos_in_range m e Hv). tauto.
Qed.

Lemma validateRound_iff_witness :
  is_double (of_Z 100) = true
  /\ validateRound (of_Z 100) = Return (of_Z 100)
  /\ validateRound (of_Z (2 ^ 53)) <> Return (of_Z (2 ^ 53)).
Proof.
  split; [reflexivity|]. split.
  - apply (proj1 (validateRound_iff (of_Z 100) eq_refl)).
    exists 100%Z. split; [|lia].
    eexists. split; [reflexivity|]. vm_compute. reflexivity.
  - intros H.
    apply (proj1 (validateRound_iff (of_Z (2 ^ 53)) eq_refl)) in H
      as (z & (q & Hq & Hz) & Hrange).
    injection Hq as <-. unfold Qeq in Hz. cbn in Hz. lia.
Defined.

(** ** The command-line parser *)

Lemma list_pair_ind {A} (P : list A -> Prop) :
  P [] ->
  (forall a, P [a]) ->
  (forall a b l, P l -> P (b :: l) -> P (a :: b :: l)) ->
  forall l, P l.
Proof.
  intros Hnil Hone Hstep l.
  assert (H : P l /\ forall a, P (a :: l)).
  { induction l as [|b l [IHl IHbl]].
    - split; [exact Hnil | exact Hone].
    - split; [apply IHbl | intros a; apply Hstep; [exact IHl | apply IHbl]]. }
  apply H.
Qed.

Lemma parse_flags_cons (arg : jsstring) (rest : list jsstring) (o : Options) :
  parse_flags (arg :: rest) o =
  match classify arg with
  | KOutput =>
      match rest with
      | next :: rest' => parse_flags rest' (set_output o (Some next))
      | [] => (Exit 1%Z,
               [Stderr (js "❌ Error: --output requires a filename" ++ nl)])
      end
  | KTestnet => parse_flags rest (set_testnet o true)
  | KVerbose => parse_flags rest (set_verbose o true)
  | KStdout => parse_flags rest (set_stdout o true)
  | KQuiet => parse_flags rest (set_quiet o true)
  | KUnknownLong => unknown_flag_exit arg
  | KIgnored => parse_flags rest o
  end.
Proof.
  unfold classify. cbn [parse_flags].
  destruct (is_flag arg "--output" "-o"); [destruct rest; reflexivity|].
  destruct (is_flag arg "--testnet" "-t"); [reflexivity|].
  destruct (is_flag arg "--verbose" "-v"); [reflexivity|].
  destruct (is_flag arg "--stdout" "-s"); [reflexivity|].
  destruct (is_flag arg "--quiet" "-q"); [reflexivity|].
  destruct (startsWith arg (js "--")); [|reflexivity].
  unfold unknown_flag_exit, console_error, emit, process_exit, bind.
  cbn [app]. now rewrite <- app_assoc.
Qed.

Lemma parse_flags_return (rest : list jsstring) :
  forall o o' t,
    parse_flags rest o = (Return o', t) ->
    t = [] /\ text o' = text o /\ round o' = round o.
Proof.
  induction rest as [|a|a b l IHl IHbl] using list_pair_ind; intros o o' t.
  - cbn. intros H. injection H as <- <-. auto.
  - rewrite parse_flags_cons.
    destruct (classify a); cbn; intros H; try discriminate;
      injection H as <- <-; auto.
  - rewrite parse_flags_cons.
    destruct (classify a); try (intros H; apply IHbl in H; exact H);
      try discriminate.
    intros H. apply IHl in H. exact H.
Qed.

Lemma parse_flags_app (pre : list jsstring) :
  forall rest o o1 t,
    parse_flags pre o = (Return o1, t) ->
    parse_flags (pre ++ rest) o = parse_flags rest o1.
Proof.
  induction pre as [|a|a b l IHl IHbl] using list_pair_ind; intros rest o o1 t.
  - cbn. intros H. now injection H as <- <-.
  - rewrite parse_flags_cons. cbn [app]. rewrite (parse_flags_cons a rest).
    destruct (classify a); cbn; intros H; try discriminate;
      injection H as <- <-; reflexivity.
  - rewrite parse_flags_cons.
    change ((a :: b :: l) ++ rest) with (a :: (b :: l) ++ rest).
    rewrite (parse_flags_cons a ((b :: l) ++ rest)).
    destruct (classify a); try (apply IHbl); try discriminate.
    cbn [app]. apply IHl.
Qed.

(** What a successful parse went through. *)
Lemma parseArgs_return (process_argv : list jsstring) (o : Options)
  (t : list effect) :
  parseArgs process_argv = (Return o, t) ->
  exists text round_token flags,
    skipn 2 process_argv = text :: round_token :: flags
    /\ no_help (text :: round_token :: flags)
    /\ text_is_blank text = false
    /\ isNaN (parseInt round_token) || lt (parseInt round_token) one = false
    /\ parse_flags flags (initial_options text round_token) = (Return o, [])
    /\ stdout o && output_truthy o = false
    /\ quiet o && negb (stdout o) = false
    /\ t = [].
Proof.
  unfold parseArgs, no_help.
  destruct (includes (skipn 2 process_argv) (js "--help")
            || includes (skipn 2 process_argv) (js "-h")) eqn:Hhelp.
  { run_m. discriminate. }
  destruct (skipn 2 process_argv) as [|text [|tok flags]].
  { run_m. discriminate. }
  { run_m. discriminate. }
  destruct (text_is_blank text) eqn:Hblank.
  { run_m. discriminate. }
  destruct (isNaN (parseInt tok) || lt (parseInt tok) one) eqn:Hround.
  { run_m. discriminate. }
  fold (initial_options text tok).
  destruct (parse_flags flags (initial_options text tok)) as [[o1|e|c] t1] eqn:Hflags;
    cbv [bind]; try discriminate.
  apply parse_flags_return in Hflags as Hinv. destruct Hinv as (-> & _ & _).
  unfold validate_options.
  destruct (stdout o1 && output_truthy o1) eqn:H1.
  { run_m. discriminate. }
  destruct (quiet o1 && negb (stdout o1)) eqn:H2.
  { run_m. discriminate. }
  run_m. cbn [app]. intros H. injection H as <- <-.
  exists text, tok, flags. repeat split; auto.
Qed.

(** The parser ends in a value or in [process.exit], never in a throw. *)
Lemma parse_flags_no_throw (rest : list jsstring) :
  forall o e t, parse_flags rest o <> (Throw e, t).
Proof.
  induction rest as [|a|a b l IHl IHbl] using list_pair_ind; intros o e t.
  - cbn. discriminate.
  - rewrite parse_flags_cons. destruct (classify a); cbn; discriminate.
  - rewrite parse_flags_cons.
    destruct (classify a); try apply IHbl; try apply IHl. discriminate.
Qed.

Lemma main_of_parse_return (env : Env) (process_argv : list jsstring)
  (o : Options) (t : list effect) :
  parseArgs process_argv = (Return o, t) ->
  main env process_argv =
  match main_after_parse env o with
  | (Throw e, t') =>
      (Throw (ReferenceError (js "options is not defined")), t')
  | other => other
  end.
Proof.
  intros H. pose proof (parseArgs_return _ _ _ H) as Hinv.
  destruct Hinv as (? & ? & ? & _ & _ & _ & _ & _ & _ & _ & ->).
  unfold main. rewrite H. cbv [bind].
  destruct (main_after_parse env o) as [[u|e|c] t']; cbn [app]; run_m;
    try reflexivity.
  now rewrite app_nil_r.
Qed.

Lemma main_of_parse_exit (env : Env) (process_argv : list jsstring)
  (c : Z) (t : list effect) :
  parseArgs process_argv = (Exit c, t) ->
  main env process_argv = (Exit c, t).
Proof. intros H. unfold main. rewrite H. reflexivity. Qed.

Lemma parseArgs_positionals (process_argv : list jsstring)
  (text round_token : jsstring) (flags : list jsstring) :
  skipn 2 process_argv = text :: round_token :: flags ->
  no_help (text :: round_token :: flags) ->
  parseArgs process_argv =
  if text_is_blank text then
    (Exit 1%Z, [Stderr (js "❌ Error: Text cannot be empty" ++ nl)])
  else if isNaN (parseInt round_token) || lt (parseInt round_token) one then
    (Exit 1%Z, [Stderr (js "❌ Error: Round must be a positive integer" ++ nl)])
  else
    match parse_flags flags (initial_options text round_token) with
    | (Return o, _) => validate_options o
    | other => other
    end.
Proof.
  intros Hargs Hhelp. unfold parseArgs, no_help in *. rewrite Hargs, Hhelp.
  destruct (text_is_blank text); [reflexivity|].
  destruct (isNaN (parseInt round_token) || lt (parseInt round_token) one);
    [reflexivity|].
  fold (initial_options text round_token).
  destruct (parse_flags flags (initial_options text round_token))
    as [[o|e|c] t] eqn:Hflags; cbv [bind]; try reflexivity.
  apply parse_flags_return in Hflags as (-> & _).
  destruct (validate_options o) as [r t']. reflexivity.
Qed.

Lemma encryptText_quiet_stdout (env : Env) (o : Options) :
  quiet o = true -> stdout o = true ->
  encryptText env o =
  match encrypt_reply env o with
  | inr a =>
      (Return (mkEncrypted a None),
       [NewClient (client_of o);
        Encrypt (round o) (utf8_encode (text o)) (client_of o);
        Stdout a])
  | inl e =>
      (Throw e,
       [NewClient (client_of o);
        Encrypt (round o) (utf8_encode (text o)) (client_of o)])
  end.
Proof.
  unfold encrypt_reply, client_of. split_options o. intros -> ->.
  unfold encryptText. cbn [text round output testnet verbose stdout quiet negb].
  destruct otestnet; run_m;
    match goal with
    | |- context [timelockEncrypt_reply ?e ?r ?b ?c] =>
        destruct (timelockEncrypt_reply e r b c)
    end; reflexivity.
Qed.

(** Claim C1.  In a run parsed with both [stdout] and [quiet] set, standard
    output receives one write, the artifact the encryption primitive
    returned, so its bytes are the artifact's bytes; when the primitive fails
    standard output receives nothing. *)
Theorem quiet_stdout_only_artifact (env : Env) (process_argv : list jsstring)
  (o : Options) (t : list effect) :
  parseArgs process_argv = (Return o, t) ->
  stdout o = true -> quiet o = true ->
  match encrypt_reply env o with
  | inr artifact =>
      main env process_argv =
        (Return tt,
         [NewClient (client_of o);
          Encrypt (round o) (utf8_encode (text o)) (client_of o);
          Stdout artifact])
      /\ stdout_chunks (snd (main env process_argv)) = [artifact]
      /\ stdout_bytes (snd (main env process_argv)) = utf8_encode artifact
  | inl _ =>
      stdout_chunks (snd (main env process_argv)) = []
      /\ stdout_bytes (snd (main env process_argv)) = []
  end.
Proof.
  intros Hparse Hs Hq. rewrite (main_of_parse_return env _ _ _ Hparse).
  unfold main_after_parse. rewrite (encryptText_quiet_stdout env o Hq Hs), Hq.
  destruct (encrypt_reply env o) as [e|a]; run_m; cbn.
  - auto.
  - rewrite app_nil_r. auto.
Qed.

Lemma quiet_stdout_only_artifact_witness :
  parseArgs quiet_stream_argv = (Return quiet_stream_options, [])
  /\ stdout quiet_stream_options = true
  /\ quiet quiet_stream_options = true
  /\ stdout_chunks (snd (main all_up quiet_stream_argv)) = [artifact]
  /\ stdout_bytes (snd (main all_up quiet_stream_argv)) = utf8_encode artifact.
Proof.
  assert (Hp : parseArgs quiet_stream_argv = (Return quiet_stream_options, []))
    by (vm_compute; reflexivity).
  split; [exact Hp|]. split; [reflexivity|]. split; [reflexivity|].
  exact (proj2 (quiet_stdout_only_artifact all_up _ _ _ Hp eq_refl eq_refl)).
Defined.

Lemma stdout_stream_not_quiet (env : Env) (o : Options) (a : jsstring) :
  stdout o = true -> quiet o = false -> encrypt_reply env o = inr a ->
  fst (main_after_parse env o) = Return tt
  /\ exists pre,
      stdout_chunks (snd (main_after_parse env o)) =
      ((js "🚀 TLOCK-JS CLI Encryption Tool" ++ nl)
       :: ((js "================================" ++ nl) ++ nl)
       :: pre)
      ++ [js "📤 Outputting encrypted content to stdout:" ++ nl;
          separator_before; a; separator_after;
          (nl ++ js "🎉 Done! Encrypted content output to stdout.") ++ nl;
          (nl ++ js "💡 You can pipe this output to other tools or save to file.") ++ nl;
          (nl ++ js "💡 To decrypt later, use:") ++ nl;
          js "   const decrypted = await timelockDecrypt(encryptedContent, client);" ++ nl].
Proof.
  unfold encrypt_reply, client_of, separator_before, separator_after.
  split_options o. intros -> -> Hreply.
  destruct otestnet, overbose; run_main;
    (split; [reflexivity|]); cbn [snd stdout_chunks flat_map app]; split_front.
Qed.

Lemma flat_map_length_in {A B} (f : A -> list B) (x a : A) (l : list A) :
  In a l ->
  (List.length (f x) + List.length (f a)
   <= List.length (flat_map f (x :: l)))%nat.
Proof.
  intros Hin. apply in_split in Hin as (l1 & l2 & ->).
  cbn [flat_map]. rewrite flat_map_app. cbn [flat_map].
  rewrite !length_app. lia.
Qed.

Lemma main_quiet_stdout (env : Env) (process_argv : list jsstring)
  (o : Options) (t : list effect) (a : jsstring) :
  parseArgs process_argv = (Return o, t) ->
  stdout o = true -> quiet o = true -> encrypt_reply env o = inr a ->
  main env process_argv =
  (Return tt,
   [NewClient (client_of o);
    Encrypt (round o) (utf8_encode (text o)) (client_of o);
    Stdout a]).
Proof.
  intros Hparse Hs Hq Ha. rewrite (main_of_parse_return env _ _ _ Hparse).
  unfold main_after_parse. rewrite (encryptText_quiet_stdout env o Hq Hs), Hq, Ha.
  run_m. cbn. reflexivity.
Qed.

(** Claim C10.  In a run with [stdout] set and the encryption succeeding:
    when [quiet] is not set, [console.log] puts the banner and report lines
    and a separator line on standard output before the artifact, and a
    separator line and the closing lines after it; the bytes of standard
    output are the artifact's bytes exactly when [quiet] is set. *)
Theorem stdout_framed_unless_quiet (env : Env) (process_argv : list jsstring)
  (o : Options) (t : list effect) (a : jsstring) :
  parseArgs process_argv = (Return o, t) ->
  stdout o = true -> encrypt_reply env o = inr a ->
  (quiet o = false ->
   exists pre,
     stdout_chunks (snd (main env process_argv)) =
     ((js "🚀 TLOCK-JS CLI Encryption Tool" ++ nl)
      :: ((js "================================" ++ nl) ++ nl)
      :: pre)
     ++ [js "📤 Outputting encrypted content to stdout:" ++ nl;
         separator_before; a; separator_after;
         (nl ++ js "🎉 Done! Encrypted content output to stdout.") ++ nl;
         (nl ++ js "💡 You can pipe this output to other tools or save to file.") ++ nl;
         (nl ++ js "💡 To decrypt later, use:") ++ nl;
         js "   const decrypted = await timelockDecrypt(encryptedContent, client);" ++ nl])
  /\ (stdout_bytes (snd (main env process_argv)) = utf8_encode a
      <-> quiet o = true).
Proof.
  intros Hparse Hs Ha.
  assert (Hframed : quiet o = false ->
            main env process_argv = main_after_parse env o).
  { intros Hq. rewrite (main_of_parse_return env _ _ _ Hparse).
    destruct (stdout_stream_not_quiet env o a Hs Hq Ha) as [Hret _].
    destruct (main_after_parse env o) as [[u|e|c] t']; try reflexivity.
    discriminate. }
  split.
  - intros Hq. rewrite (Hframed Hq).
    apply (stdout_stream_not_quiet env o a Hs Hq Ha).
  - split.
    + intros Hbytes. destruct (quiet o) eqn:Hq; [reflexivity|]. exfalso.
      rewrite (Hframed eq_refl) in Hbytes.
      destruct (stdout_stream_not_quiet env o a Hs Hq Ha) as [_ [pre Hpre]].
      unfold stdout_bytes in Hbytes. rewrite Hpre in Hbytes.
      cbn [app] in Hbytes.
      match type of Hbytes with
      | flat_map _ (?x :: ?l) = _ =>
          assert (Hin : In a l)
            by (right; apply in_or_app; right; cbn; auto);
          pose proof (flat_map_length_in utf8_encode x a l Hin) as Hlen
      end.
      apply (f_equal (@List.length N)) in Hbytes.
      change (List.length (utf8_encode (js "🚀 TLOCK-JS CLI Encryption Tool" ++ nl)))
        with 34%nat in Hlen.
      unfold jsstring, code_unit in *. lia.
    + intros Hq. rewrite (main_quiet_stdout env _ o t a Hparse Hs Hq Ha).
      cbn. apply app_nil_r.
Qed.

Lemma stdout_framed_unless_quiet_witness :
  parseArgs stream_argv = (Return stream_options, [])
  /\ stdout stream_options = true
  /\ encrypt_reply all_up stream_options = inr artifact
  /\ stdout_bytes (snd (main all_up stream_argv)) <> utf8_encode artifact.
Proof.
  assert (Hp : parseArgs stream_argv = (Return stream_options, []))
    by (vm_compute; reflexivity).
  split; [exact Hp|]. split; [reflexivity|]. split; [reflexivity|].
  intros Hbytes.
  apply (proj2 (stdout_framed_unless_quiet all_up _ _ _ artifact
                  Hp eq_refl eq_refl)) in Hbytes.
  discriminate Hbytes.
Defined.

Lemma main_returns (env : Env) (process_argv : list jsstring) (o : Options)
  (t : list effect) :
  parseArgs process_argv = (Return o, t) ->
  fst (main_after_parse env o) = Return tt ->
  main env process_argv = main_after_parse env o.
Proof.
  intros Hparse Hret. rewrite (main_of_parse_return env _ _ _ Hparse).
  destruct (main_after_parse env o) as [[u|e|c] t']; try reflexivity.
  discriminate.
Qed.

Lemma main_trace (env : Env) (process_argv : list jsstring) (o : Options)
  (t : list effect) :
  parseArgs process_argv = (Return o, t) ->
  snd (main env process_argv) = snd (main_after_parse env o).
Proof.
  intros Hparse. rewrite (main_of_parse_return env _ _ _ Hparse).
  now destruct (main_after_parse env o) as [[u|e|c] t'].
Qed.

(** Claim C7.  In a run with [verbose] set and [quiet] not set whose
    chain-info query fails, the failure is written as a warning line with the
    error's message and the encryption call follows it; the run then ends
    normally whenever the encryption (and the file write, if any) succeeds. *)
Theorem chain_info_failure_not_fatal (env : Env)
  (process_argv : list jsstring) (o : Options) (t : list effect)
  (err : js_error) :
  parseArgs process_argv = (Return o, t) ->
  verbose o = true -> quiet o = false ->
  chain_info_reply env (client_of o) = inl err ->
  (exists before after,
     snd (main env process_argv) =
     before
     ++ [ChainInfoRequest (client_of o);
         Stdout ((js "⚠️  Could not fetch chain info: " ++ message err) ++ nl);
         Encrypt (round o) (utf8_encode (text o)) (client_of o)]
     ++ after)
  /\ (forall a,
        encrypt_reply env o = inr a ->
        (stdout o = false ->
         writeFileSync_reply env (output_filename env o) a = None) ->
        fst (main env process_argv) = Return tt).
Proof.
  intros Hparse Hv Hq Hinfo. split.
  - rewrite (main_trace env _ _ _ Hparse).
    unfold client_of in *. split_options o. subst overbose oquiet.
    exists [Stdout (js "🚀 TLOCK-JS CLI Encryption Tool" ++ nl);
            Stdout ((js "================================" ++ nl) ++ nl);
            NewClient (if otestnet then Testnet else Mainnet);
            Stdout ((js "🔐 Encrypting text for "
                       ++ (if otestnet then js "testnet"
                           else js "mainnet (quicknet)")) ++ nl);
            Stdout ((js "📝 Text: " ++ dquote ++ otext ++ dquote) ++ nl);
            Stdout ((js "🎯 Round: " ++ Number_toString env oround) ++ nl);
            Stdout ((js "🌐 Network: "
                       ++ (if otestnet then js "testnet"
                           else js "mainnet (quicknet)")) ++ nl)].
    destruct otestnet, ostdout; run_main;
      destruct (timelockEncrypt_reply env oround (utf8_encode otext) _);
      run_m; try (destruct (writeFileSync_reply env _ _); run_m);
      cbn [snd app]; eexists; reflexivity.
  - intros a Ha Hw.
    assert (Hret : fst (main_after_parse env o) = Return tt).
    { unfold encrypt_reply in *. unfold client_of in *. split_options o.
      subst overbose oquiet.
      destruct otestnet, ostdout; try specialize (Hw eq_refl);
        cbv beta iota in *; run_main; reflexivity. }
    rewrite (main_returns env _ _ _ Hparse Hret). exact Hret.
Qed.

Lemma chain_info_failure_not_fatal_witness :
  parseArgs verbose_argv = (Return verbose_options, [])
  /\ verbose verbose_options = true /\ quiet verbose_options = false
  /\ chain_info_reply info_down (client_of verbose_options) = inl fetch_failed
  /\ fst (main info_down verbose_argv) = Return tt
  /\ In (Encrypt (of_Z 100) (utf8_encode (js "Hello")) Mainnet)
        (snd (main info_down verbose_argv)).
Proof.
  assert (Hp : parseArgs verbose_argv = (Return verbose_options, []))
    by (vm_compute; reflexivity).
  destruct (chain_info_failure_not_fatal info_down _ _ _ fetch_failed
              Hp eq_refl eq_refl eq_refl) as [(before & after & Htrace) Hrun].
  split; [exact Hp|]. split; [reflexivity|]. split; [reflexivity|].
  split; [reflexivity|]. split.
  - apply (Hrun artifact); reflexivity.
  - rewrite Htrace. apply in_or_app. right. cbn. auto.
Defined.

Lemma replaced_prefix_has_no_colon_or_period (n : nat) (s : jsstring) :
  forallb filesystem_safe (firstn n (replace_colon_period s)) = true.
Proof.
  unfold replace_colon_period, filesystem_safe. revert n.
  induction s as [|u s IH]; intros [|n]; cbn [map firstn forallb];
    try reflexivity.
  rewrite IH, andb_true_r.
  destruct ((u =? 58) || (u =? 46))%N eqn:Hu; [reflexivity|].
  now rewrite Hu.
Qed.

Lemma timestamp_has_no_colon_or_period (iso : jsstring) :
  forallb filesystem_safe (timestamp_of iso) = true.
Proof. apply replaced_prefix_has_no_colon_or_period. Qed.

(** Claim C8.  In a run with no output path and [stdout] not set, the file
    written (when the encryption and the write succeed) is named
    [encrypted-<network>-round-<round>-<timestamp>.age]: [<network>] is
    [testnet] or [mainnet] as the [testnet] option says, [<round>] is the
    round as a string, and [<timestamp>] is the ISO time with every colon and
    period replaced by a hyphen and its last five characters dropped, so it
    holds neither colon nor period. *)
Theorem auto_generated_filename (env : Env) (process_argv : list jsstring)
  (o : Options) (t : list effect) (a : jsstring) :
  parseArgs process_argv = (Return o, t) ->
  output_truthy o = false -> stdout o = false ->
  encrypt_reply env o = inr a ->
  writeFileSync_reply env (auto_filename env o) a = None ->
  let timestamp := timestamp_of (Date_toISOString env) in
  files_written (snd (main env process_argv)) = [(auto_filename env o, a)]
  /\ auto_filename env o =
     js "encrypted-" ++ (if testnet o then js "testnet" else js "mainnet")
       ++ js "-round-" ++ Number_toString env (round o) ++ js "-"
       ++ timestamp ++ js ".age"
  /\ timestamp =
     firstn (List.length (Date_toISOString env) - 5)
       (map (fun u => if ((u =? 58) || (u =? 46))%N then 45%N else u)
          (Date_toISOString env))
  /\ forallb filesystem_safe timestamp = true.
Proof.
  intros Hparse Hout Hs Ha Hw timestamp. split; [|split; [reflexivity|split]].
  - rewrite (main_trace env _ _ _ Hparse).
    assert (Hf : output_filename env o = auto_filename env o)
      by (unfold output_filename; now rewrite Hout).
    rewrite <- Hf in *. clear Hf Hout.
    prepare o. subst ostdout.
    destruct otestnet, overbose, oquiet; cbv beta iota in *;
      run_main; reflexivity.
  - unfold timestamp, timestamp_of, slice_0_neg, replace_colon_period.
    now rewrite length_map.
  - apply timestamp_has_no_colon_or_period.
Qed.

Lemma auto_generated_filename_witness :
  parseArgs plain_argv = (Return hello_options, [])
  /\ output_truthy hello_options = false /\ stdout hello_options = false
  /\ encrypt_reply all_up hello_options = inr artifact
  /\ writeFileSync_reply all_up (auto_filename all_up hello_options) artifact
     = None
  /\ files_written (snd (main all_up plain_argv))
     = [(js "encrypted-mainnet-round-100-2026-11-02T09-58-12.age", artifact)].
Proof.
  assert (Hp : parseArgs plain_argv = (Return hello_options, []))
    by (vm_compute; reflexivity).
  split; [exact Hp|]. split; [reflexivity|]. split; [reflexivity|].
  split; [reflexivity|]. split; [reflexivity|].
  rewrite (proj1 (auto_generated_filename all_up _ _ _ artifact
                    Hp eq_refl eq_refl eq_refl eq_refl)).
  vm_compute. reflexivity.
Defined.

Lemma classify_unrecognized (arg : jsstring) :
  recognized arg = false ->
  classify arg = if startsWith arg (js "--") then KUnknownLong else KIgnored.
Proof.
  unfold recognized, classify. intros H.
  do 4 (apply orb_false_iff in H as [H ?]).
  repeat match goal with Hf : is_flag _ _ _ = false |- _ => rewrite Hf; clear Hf end.
  reflexivity.
Qed.

Lemma includes_app (l1 l2 : list jsstring) (x : jsstring) :
  includes (l1 ++ l2) x = includes l1 x || includes l2 x.
Proof. apply existsb_app. Qed.

Lemma no_help_remove (text tok : jsstring) (pre : list jsstring)
  (arg : jsstring) (suf : list jsstring) :
  no_help (text :: tok :: pre ++ arg :: suf) ->
  no_help (text :: tok :: pre ++ suf).
Proof.
  unfold no_help.
  change (text :: tok :: pre ++ arg :: suf)
    with ([text; tok] ++ pre ++ [arg] ++ suf).
  change (text :: tok :: pre ++ suf) with ([text; tok] ++ pre ++ suf).
  rewrite !includes_app. intros H.
  apply orb_false_iff in H as [H1 H2].
  repeat (apply orb_false_iff in H1 as [? H1]).
  repeat (apply orb_false_iff in H2 as [? H2]).
  repeat match goal with Hf : _ = false |- _ => rewrite Hf; clear Hf end.
  reflexivity.
Qed.

(** Claim C4, as amended.  When parsing reaches a token that is none of the
    known flags (no help flag, two valid positionals, the tokens before it
    read without error, and it is not the value of [--output]): if the token
    starts with [--] parsing ends with exit code 1 and names it; if it does
    not, the token is skipped and parsing goes as if it were absent. *)
Theorem unknown_flag_tokens (process_argv : list jsstring)
  (text tok : jsstring) (pre : list jsstring) (arg : jsstring)
  (suf : list jsstring) (o1 : Options) :
  skipn 2 process_argv = text :: tok :: pre ++ arg :: suf ->
  no_help (text :: tok :: pre ++ arg :: suf) ->
  text_is_blank text = false ->
  isNaN (parseInt tok) || lt (parseInt tok) one = false ->
  parse_flags pre (initial_options text tok) = (Return o1, []) ->
  recognized arg = false ->
  (startsWith arg (js "--") = true ->
   parseArgs process_argv =
   (Exit 1%Z, [Stderr (js "❌ Error: Unknown flag: " ++ arg ++ nl)]))
  /\ (startsWith arg (js "--") = false ->
      forall argv',
        skipn 2 argv' = text :: tok :: pre ++ suf ->
        parseArgs process_argv = parseArgs argv').
Proof.
  intros Hargs Hhelp Htext Hround Hpre Hrec.
  pose proof (classify_unrecognized arg Hrec) as Hk.
  rewrite (parseArgs_positionals _ _ _ _ Hargs Hhelp), Htext, Hround.
  rewrite (parse_flags_app pre (arg :: suf) _ _ _ Hpre), parse_flags_cons, Hk.
  split.
  - intros ->. reflexivity.
  - intros -> argv' Hargs'.
    rewrite (parseArgs_positionals _ _ _ _ Hargs'
               (no_help_remove _ _ _ _ _ Hhelp)), Htext, Hround.
    now rewrite (parse_flags_app pre suf _ _ _ Hpre).
Qed.

(** Claim C4 as stated fails on an unknown single-dash flag: it is skipped
    and the parse succeeds. *)
Lemma short_flag_ignored_counterexample :
  skipn 2 short_flag_argv = [js "Hello"; js "100"; js "-x"]
  /\ recognized (js "-x") = false
  /\ parseArgs short_flag_argv = (Return hello_options, [])
  /\ fst (parseArgs short_flag_argv) <> Exit 1%Z.
Proof. vm_compute. repeat split. discriminate. Qed.

Lemma unknown_flag_tokens_witness :
  parse_flags [js "--testnet"] hello_options
  = (Return (set_testnet hello_options true), [])
  /\ recognized (js "--bogus") = false
  /\ parseArgs bogus_flag_argv =
     (Exit 1%Z, [Stderr (js "❌ Error: Unknown flag: " ++ js "--bogus" ++ nl)]).
Proof.
  split; [vm_compute; reflexivity|]. split; [vm_compute; reflexivity|].
  refine (proj1 (unknown_flag_tokens bogus_flag_argv
                   (js "Hello") (js "100") [js "--testnet"] (js "--bogus")
                   [js "-v"] (set_testnet hello_options true)
                   _ _ _ _ _ _) _); vm_compute; reflexivity.
Defined.

(** Claim C6, as amended.  An output path counts as given when
    [options.output] is truthy, that is, a non-empty string: this is the test
    the code applies.  Every [Options] record a successful parse returns has
    [stdout] and a non-empty output path never both set, and [quiet] set only
    with [stdout].  Flags that the loop reads without error and that break
    either rule end the run with exit code 1, one line on standard error, no
    client built, no remote call and no file written; flags that break
    neither are returned as read. *)
Theorem options_invariants (process_argv : list jsstring) :
  (forall o t,
     parseArgs process_argv = (Return o, t) ->
     stdout o && output_truthy o = false
     /\ (quiet o = true -> stdout o = true))
  /\ (forall text tok flags o1,
        skipn 2 process_argv = text :: tok :: flags ->
        no_help (text :: tok :: flags) ->
        text_is_blank text = false ->
        isNaN (parseInt tok) || lt (parseInt tok) one = false ->
        parse_flags flags (initial_options text tok) = (Return o1, []) ->
        (stdout o1 && output_truthy o1 = true
         \/ quiet o1 && negb (stdout o1) = true ->
         forall env,
           (exists msg, main env process_argv = (Exit 1%Z, [Stderr msg]))
           /\ network_calls (snd (main env process_argv)) = []
           /\ files_written (snd (main env process_argv)) = [])
        /\ (stdout o1 && output_truthy o1 = false ->
            quiet o1 && negb (stdout o1) = false ->
            parseArgs process_argv = (Return o1, []))).
Proof.
  split.
  - intros o t Hparse.
    apply parseArgs_return in Hparse
      as (_ & _ & _ & _ & _ & _ & _ & _ & H1 & H2 & _).
    split; [exact H1|]. intros Hq. rewrite Hq in H2.
    now destruct (stdout o).
  - intros text tok flags o1 Hargs Hhelp Htext Hround Hflags.
    assert (Hp : parseArgs process_argv = validate_options o1)
      by now rewrite (parseArgs_positionals _ _ _ _ Hargs Hhelp),
                     Htext, Hround, Hflags.
    split.
    + intros Hbad env.
      assert (Hex : exists msg,
                 parseArgs process_argv = (Exit 1%Z, [Stderr msg])).
      { rewrite Hp. unfold validate_options.
        destruct (stdout o1 && output_truthy o1).
        - eexists. reflexivity.
        - destruct Hbad as [Hbad|Hbad]; [discriminate|]. rewrite Hbad.
          eexists. reflexivity. }
      destruct Hex as [msg Hex]. rewrite (main_of_parse_exit env _ _ _ Hex).
      split; [now exists msg|]. split; reflexivity.
    + intros H1 H2. rewrite Hp. unfold validate_options.
      now rewrite H1, H2.
Qed.

(** Claim C6 as stated fails for an empty output path: [--stdout -o] followed
    by an empty argument is parsed to a record that has [stdout] set and
    [output] set to the empty string, and the run goes on to build the client
    and to encrypt. *)
Lemma empty_output_path_counterexample :
  parseArgs stream_and_empty_path_argv
  = (Return (mkOptions (js "Hello") (of_Z 100) (Some []) false false true
               false), [])
  /\ output_truthy (set_output (set_stdout hello_options true) (Some []))
     = false
  /\ fst (main all_up stream_and_empty_path_argv) = Return tt
  /\ network_calls (snd (main all_up stream_and_empty_path_argv))
     = [NewClient Mainnet;
        Encrypt (of_Z 100) (utf8_encode (js "Hello")) Mainnet]
  /\ files_written (snd (main all_up stream_and_empty_path_argv)) = [].
Proof. vm_compute. repeat split. Qed.

Lemma options_invariants_witness :
  parse_flags [js "--quiet"] hello_options
  = (Return (set_quiet hello_options true), [])
  /\ quiet (set_quiet hello_options true)
     && negb (stdout (set_quiet hello_options true)) = true
  /\ (exists msg, main all_up quiet_alone_argv = (Exit 1%Z, [Stderr msg]))
  /\ (exists msg, main all_up stream_and_file_argv = (Exit 1%Z, [Stderr msg]))
  /\ parseArgs quiet_stream_argv = (Return quiet_stream_options, []).
Proof.
  split; [vm_compute; reflexivity|]. split; [reflexivity|].
  split; [|split].
  - refine (proj1 (proj1 (proj2 (options_invariants quiet_alone_argv)
                            (js "Hello") (js "100") [js "--quiet"]
                            (set_quiet hello_options true) _ _ _ _ _)
                     _ all_up)); try (vm_compute; reflexivity).
    right. vm_compute. reflexivity.
  - refine (proj1 (proj1 (proj2 (options_invariants stream_and_file_argv)
                            (js "Hello") (js "100")
                            [js "--stdout"; js "--output"; js "f.age"]
                            (set_output (set_stdout hello_options true)
                               (Some (js "f.age"))) _ _ _ _ _)
                     _ all_up)); try (vm_compute; reflexivity).
    left. vm_compute. reflexivity.
  - refine (proj2 (proj2 (options_invariants quiet_stream_argv)
                     (js "Hello") (js "100") [js "--stdout"; js "--quiet"]
                     quiet_stream_options _ _ _ _ _) _ _);
      vm_compute; reflexivity.
Defined.



(* ================================================================== *)
(** * Further properties of the three scripts *)

Import MoreVocabulary MoreSamples.

(** ** The command line *)

(** Property X1.  When [--help] or [-h] occurs anywhere among the arguments,
    the run prints the help text on standard output and ends with exit code
    0, whatever the other arguments are; nothing else happens. *)
Theorem help_short_circuits (env : Env) (process_argv : list jsstring) :
  help_requested (skipn 2 process_argv) = true ->
  CliEncrypt.main env process_argv =
  (Exit 0%Z, [Stdout ((nl ++ unlines help_lines) ++ nl)]).
Proof.
  unfold help_requested. intros H. apply main_of_parse_exit.
  unfold parseArgs. rewrite H. reflexivity.
Qed.

Lemma help_short_circuits_witness :
  help_requested (skipn 2 help_among_errors_argv) = true
  /\ CliEncrypt.main encrypt_down help_among_errors_argv =
     (Exit 0%Z, [Stdout ((nl ++ unlines help_lines) ++ nl)]).
Proof.
  split; [vm_compute; reflexivity|].
  apply (help_short_circuits encrypt_down help_among_errors_argv).
  vm_compute. reflexivity.
Defined.

(** Property X2.  With no help flag and fewer than two arguments, the run
    writes the missing-arguments line on standard error and the usage text
    on standard output, and ends with exit code 1. *)
Theorem missing_arguments (env : Env) (process_argv : list jsstring) :
  help_requested (skipn 2 process_argv) = false ->
  (List.length (skipn 2 process_argv) < 2)%nat ->
  CliEncrypt.main env process_argv =
  (Exit 1%Z,
   [Stderr (js "❌ Error: Missing required arguments" ++ nl);
    Stdout
      ((nl ++ unlines
                [ js "USAGE: node examples/cli-encrypt.js " ++ dquote
                    ++ js "text" ++ dquote ++ js " round [options]";
                  js "Try: node examples/cli-encrypt.js --help for more information" ])
       ++ nl)]).
Proof.
  unfold help_requested. intros H Hlen. apply main_of_parse_exit.
  unfold parseArgs. rewrite H.
  destruct (skipn 2 process_argv) as [|a [|b l]]; cbn in Hlen; try lia;
    reflexivity.
Qed.

Lemma missing_arguments_witness :
  help_requested (skipn 2 text_only_argv) = false
  /\ (List.length (skipn 2 text_only_argv) < 2)%nat
  /\ fst (CliEncrypt.main all_up text_only_argv) = Exit 1%Z.
Proof.
  assert (Hh : help_requested (skipn 2 text_only_argv) = false)
    by (vm_compute; reflexivity).
  assert (Hl : (List.length (skipn 2 text_only_argv) < 2)%nat)
    by (vm_compute; lia).
  split; [exact Hh|]. split; [exact Hl|].
  now rewrite (missing_arguments all_up text_only_argv Hh Hl).
Defined.

(** Property X3.  When the flag loop reads [--output] or [-o]: as the last
    token it ends parsing with exit code 1; otherwise the next token becomes
    the output path as it is, even if it looks like a flag, and the loop
    goes on after it. *)
Theorem output_flag_takes_next_token (process_argv : list jsstring)
  (text tok : jsstring) (pre : list jsstring) (arg : jsstring)
  (rest : list jsstring) (o1 : Options) :
  skipn 2 process_argv = text :: tok :: pre ++ arg :: rest ->
  no_help (text :: tok :: pre ++ arg :: rest) ->
  text_is_blank text = false ->
  isNaN (parseInt tok) || lt (parseInt tok) one = false ->
  parse_flags pre (initial_options text tok) = (Return o1, []) ->
  is_flag arg "--output" "-o" = true ->
  match rest with
  | [] =>
      parseArgs process_argv =
      (Exit 1%Z, [Stderr (js "❌ Error: --output requires a filename" ++ nl)])
  | value :: suf =>
      parseArgs process_argv =
      match parse_flags suf (set_output o1 (Some value)) with
      | (Return o, _) => validate_options o
      | other => other
      end
  end.
Proof.
  intros Hargs Hhelp Htext Hround Hpre Hflag.
  rewrite (parseArgs_positionals _ _ _ _ Hargs Hhelp), Htext, Hround.
  rewrite (parse_flags_app pre (arg :: rest) _ _ _ Hpre), parse_flags_cons.
  unfold classify. rewrite Hflag. destruct rest; reflexivity.
Qed.

Lemma output_flag_takes_next_token_witness :
  is_flag (js "-o") "--output" "-o" = true
  /\ parseArgs flag_as_path_argv
     = (Return (set_output hello_options (Some (js "--stdout"))), []).
Proof.
  split; [vm_compute; reflexivity|].
  rewrite (output_flag_takes_next_token flag_as_path_argv
             (js "Hello") (js "100") [] (js "-o") [js "--stdout"]
             hello_options); vm_compute; reflexivity.
Defined.

Lemma with_switches_nil (o : Options) : with_switches o [] = o.
Proof.
  destruct o. unfold with_switches. cbn. now rewrite !orb_false_r.
Qed.

(** Property X4.  On a list of tokens none of which reads as [--output] or
    as an unknown [--] flag, the loop succeeds, keeps text, round and output,
    and sets each of [testnet], [verbose], [stdout], [quiet] when it was set
    before or one of the tokens is its flag; so the result does not depend
    on the order or the repetition of the tokens. *)
Theorem switches_accumulate (flags : list jsstring) (o : Options) :
  forallb switch_or_ignored flags = true ->
  parse_flags flags o = (Return (with_switches o flags), [])
  /\ (forall flags', Permutation flags flags' ->
        parse_flags flags' o = parse_flags flags o).
Proof.
  assert (Hform : forall fs o0,
            forallb switch_or_ignored fs = true ->
            parse_flags fs o0 = (Return (with_switches o0 fs), [])).
  { induction fs as [|a fs IH]; intros o0 Hall.
    - now rewrite with_switches_nil.
    - cbn [forallb] in Hall. apply andb_true_iff in Hall as [Ha Hfs].
      rewrite parse_flags_cons.
      unfold switch_or_ignored, reads_as in Ha.
      unfold with_switches. cbn [existsb]. unfold reads_as at 1 3 5 7.
      destruct (classify a); try discriminate; rewrite (IH _ Hfs);
        unfold with_switches; destruct o0; cbn;
        rewrite ?orb_true_r, ?orb_false_r, ?orb_true_l, ?orb_false_l;
        reflexivity. }
  intros Hall. split; [now apply Hform|].
  intros flags' Hperm.
  assert (Hall' : forallb switch_or_ignored flags' = true).
  { apply forallb_forall. intros x Hx.
    apply (proj1 (forallb_forall _ _) Hall).
    apply Permutation_sym in Hperm. now apply (Permutation_in x Hperm). }
  rewrite (Hform _ _ Hall), (Hform _ _ Hall').
  assert (Hex : forall f, existsb f flags' = existsb f flags).
  { intros f. apply eq_true_iff_eq. rewrite !existsb_exists.
    split; intros (x & Hx & Hf); exists x; split; auto.
    - apply Permutation_sym in Hperm. now apply (Permutation_in x Hperm).
    - now apply (Permutation_in x Hperm). }
  unfold with_switches. now rewrite !Hex.
Qed.

Lemma switches_accumulate_witness :
  forallb switch_or_ignored [js "-s"; js "--quiet"] = true
  /\ parse_flags [js "--quiet"; js "-s"] hello_options
     = (Return quiet_stream_options, []).
Proof.
  split; [vm_compute; reflexivity|].
  rewrite (proj2 (switches_accumulate [js "-s"; js "--quiet"] hello_options
                    ltac:(vm_compute; reflexivity))
             [js "--quiet"; js "-s"] (perm_swap _ _ _)).
  rewrite (proj1 (switches_accumulate [js "-s"; js "--quiet"] hello_options
                    ltac:(vm_compute; reflexivity))).
  vm_compute. reflexivity.
Defined.

(** Splits on every answer of a collaborator that the goal still mentions. *)
Ltac split_replies :=
  repeat (run_m;
          match goal with
          | |- context [timelockEncrypt_reply ?e ?r ?b ?c] =>
              destruct (timelockEncrypt_reply e r b c) eqn:?
          | |- context [chain_info_reply ?e ?c] =>
              destruct (chain_info_reply e c) eqn:?
          | |- context [writeFileSync_reply ?e ?f ?c] =>
              destruct (writeFileSync_reply e f c) eqn:?
          end);
  run_m.

Ltac all_runs o :=
  prepare o;
  repeat match goal with b : bool |- _ => destruct b end;
  cbv beta iota in *;
  unfold main_after_parse, encryptText;
  cbn [text round output testnet verbose stdout quiet negb andb];
  split_replies.

(** Property X6.  Whatever the options and the collaborators' answers,
    [encryptText] builds one client, the test one iff [testnet] is set,
    queries the chain info at most once (iff [verbose] and not [quiet]) and
    calls the encryption primitive once, with the round, the UTF-8 bytes of
    the text and that client; it makes no other remote call. *)
Theorem network_calls_of_a_run (env : Env) (o : Options) :
  network_calls (snd (encryptText env o)) =
  NewClient (client_of o)
  :: (if verbose o && negb (quiet o)
      then [ChainInfoRequest (client_of o)] else [])
  ++ [Encrypt (round o) (utf8_encode (text o)) (client_of o)].
Proof. all_runs o; reflexivity. Qed.

Lemma encryptText_files (env : Env) (o : Options) :
  files_written (snd (encryptText env o)) =
  if stdout o then []
  else
    match encrypt_reply env o with
    | inl _ => []
    | inr a =>
        match writeFileSync_reply env (output_filename env o) a with
        | Some _ => []
        | None => [(output_filename env o, a)]
        end
    end.
Proof. all_runs o; reflexivity. Qed.

Lemma main_after_parse_files (env : Env) (o : Options) :
  files_written (snd (main_after_parse env o))
  = files_written (snd (encryptText env o)).
Proof. all_runs o; reflexivity. Qed.

(** Property X7.  A parsed run writes at most one file: none when [stdout]
    is set, when the encryption fails or when the write fails; otherwise the
    file named by the output path (or the generated name), holding the
    artifact as returned. *)
Theorem files_of_a_run (env : Env) (process_argv : list jsstring)
  (o : Options) (t : list effect) :
  parseArgs process_argv = (Return o, t) ->
  files_written (snd (CliEncrypt.main env process_argv)) =
  if stdout o then []
  else
    match encrypt_reply env o with
    | inl _ => []
    | inr a =>
        match writeFileSync_reply env (output_filename env o) a with
        | Some _ => []
        | None => [(output_filename env o, a)]
        end
    end.
Proof.
  intros Hparse. rewrite (main_trace env _ _ _ Hparse).
  rewrite main_after_parse_files. apply encryptText_files.
Qed.

Lemma files_of_a_run_witness :
  parseArgs named_file_argv = (Return named_file_options, [])
  /\ files_written (snd (CliEncrypt.main all_up named_file_argv))
     = [(js "out.age", artifact)]
  /\ files_written (snd (CliEncrypt.main write_down named_file_argv)) = [].
Proof.
  assert (Hp : parseArgs named_file_argv = (Return named_file_options, []))
    by (vm_compute; reflexivity).
  split; [exact Hp|]. split.
  - rewrite (files_of_a_run all_up _ _ _ Hp). reflexivity.
  - rewrite (files_of_a_run write_down _ _ _ Hp). reflexivity.
Defined.

Lemma parse_flags_exit_code (rest : list jsstring) :
  forall o c t, parse_flags rest o = (Exit c, t) -> c = 1%Z.
Proof.
  induction rest as [|a|a b l IHl IHbl] using list_pair_ind; intros o c t.
  - cbn. discriminate.
  - rewrite parse_flags_cons.
    destruct (classify a); cbn; intros H; try discriminate;
      now injection H as <- _.
  - rewrite parse_flags_cons.
    destruct (classify a); try apply IHbl; try apply IHl.
    cbn. intros H. now injection H as <- _.
Qed.

Lemma parseArgs_outcome (process_argv : list jsstring) :
  match fst (parseArgs process_argv) with
  | Return _ => snd (parseArgs process_argv) = []
  | Throw _ => False
  | Exit c => c = 0%Z \/ c = 1%Z
  end.
Proof.
  unfold parseArgs.
  destruct (includes (skipn 2 process_argv) (js "--help")
            || includes (skipn 2 process_argv) (js "-h")); [cbn; auto|].
  destruct (skipn 2 process_argv) as [|text [|tok flags]]; [cbn; auto..|].
  destruct (text_is_blank text); [cbn; auto|].
  destruct (isNaN (parseInt tok) || lt (parseInt tok) one); [cbn; auto|].
  destruct (parse_flags flags _) as [[o|e|c] t] eqn:Hflags; cbv [bind].
  - apply parse_flags_return in Hflags as (-> & _).
    unfold validate_options.
    destruct (stdout o && output_truthy o); [cbn; auto|].
    destruct (quiet o && negb (stdout o)); cbn; auto.
  - now apply parse_flags_no_throw in Hflags.
  - apply parse_flags_exit_code in Hflags. cbn. auto.
Qed.

Lemma main_after_parse_no_exit (env : Env) (o : Options) (c : Z) :
  fst (main_after_parse env o) <> Exit c.
Proof. all_runs o; discriminate. Qed.

(** Property X12.  [main] ends in one of three ways: normally, after a
    successful parse; by [process.exit] with code 0 or 1, which then comes
    from the parser, with the parser's output only; or by throwing the
    [ReferenceError] of its [catch] block, after a successful parse.  It never
    throws the error that made it fail, and its own [process.exit(1)] is
    never reached. *)
Theorem main_outcomes (env : Env) (process_argv : list jsstring) :
  match fst (CliEncrypt.main env process_argv) with
  | Return _ => exists o, parseArgs process_argv = (Return o, [])
  | Exit c =>
      parseArgs process_argv = (Exit c, snd (CliEncrypt.main env process_argv))
      /\ (c = 0%Z \/ c = 1%Z)
  | Throw e =>
      e = ReferenceError (js "options is not defined")
      /\ exists o, parseArgs process_argv = (Return o, [])
  end.
Proof.
  pose proof (parseArgs_outcome process_argv) as Hout.
  destruct (parseArgs process_argv) as [[o|e|c] t] eqn:Hparse;
    cbn [fst snd] in Hout.
  - subst t. rewrite (main_of_parse_return env _ _ _ Hparse).
    pose proof (main_after_parse_no_exit env o) as Hne.
    destruct (main_after_parse env o) as [[u|e|c] t']; cbn [fst] in *.
    + now exists o.
    + split; [reflexivity | now exists o].
    + now destruct (Hne c).
  - destruct Hout.
  - rewrite (main_of_parse_exit env _ _ _ Hparse). cbn. auto.
Qed.

(** Property X13.  After a successful parse, [main] ends normally exactly
    when the encryption primitive returns an artifact and, unless [stdout]
    is set, the file write succeeds. *)
Theorem main_succeeds_iff (env : Env) (process_argv : list jsstring)
  (o : Options) (t : list effect) :
  parseArgs process_argv = (Return o, t) ->
  fst (CliEncrypt.main env process_argv) = Return tt
  <-> exists a,
        encrypt_reply env o = inr a
        /\ (stdout o = false ->
            writeFileSync_reply env (output_filename env o) a = None).
Proof.
  intros Hparse. rewrite (main_of_parse_return env _ _ _ Hparse). clear Hparse.
  assert (H : fst (main_after_parse env o) = Return tt
              <-> exists a,
                    encrypt_reply env o = inr a
                    /\ (stdout o = false ->
                        writeFileSync_reply env (output_filename env o) a
                        = None)).
  { all_runs o; cbn [fst]; split;
      try discriminate;
      try (intros _; eexists; split; [reflexivity|]; intros; try discriminate; assumption);
      try (intros (a' & Ha' & Hw'); try discriminate Ha';
           try (injection Ha' as <-; specialize (Hw' eq_refl); congruence);
           reflexivity). }
  destruct (main_after_parse env o) as [[u|e|c] t']; cbn [fst] in *;
    try exact H.
  split; [discriminate|]. intros Hex. apply H in Hex. discriminate.
Qed.

Lemma main_succeeds_iff_witness :
  parseArgs plain_argv = (Return hello_options, [])
  /\ fst (CliEncrypt.main all_up plain_argv) = Return tt
  /\ fst (CliEncrypt.main write_down plain_argv) <> Return tt.
Proof.
  assert (Hp : parseArgs plain_argv = (Return hello_options, []))
    by (vm_compute; reflexivity).
  split; [exact Hp|]. split.
  - apply (proj2 (main_succeeds_iff all_up _ _ _ Hp)).
    exists artifact. split; reflexivity.
  - intros H. apply (proj1 (main_succeeds_iff write_down _ _ _ Hp)) in H
      as (a & Ha & Hw).
    specialize (Hw eq_refl). discriminate Hw.
Defined.

(** Property X8.  When the run succeeds, [encryptText] resolves to the
    artifact and to a [filename] that is [null] with [stdout], the given
    path with an output path, and the literal [auto-generated] otherwise,
    which is not the name of the file that was written. *)
Theorem returned_filename (env : Env) (o : Options) (a : jsstring) :
  encrypt_reply env o = inr a ->
  (stdout o = false ->
   writeFileSync_reply env (output_filename env o) a = None) ->
  fst (encryptText env o) =
  Return (mkEncrypted a
            (if stdout o then None
             else if output_truthy o then output o
             else Some (js "auto-generated")))
  /\ (stdout o = false -> output_truthy o = false ->
      files_written (snd (encryptText env o)) = [(auto_filename env o, a)]
      /\ auto_filename env o <> js "auto-generated").
Proof.
  intros Ha Hw. split.
  - prepare o.
    repeat match goal with b : bool |- _ => destruct b end;
      try specialize (Hw eq_refl); cbv beta iota in *;
      unfold encryptText;
      cbn [text round output testnet verbose stdout quiet negb andb];
      run_m; repeat (case_reply; run_m); reflexivity.
  - intros Hs Hout. specialize (Hw Hs). split.
    + rewrite encryptText_files, Hs, Ha, Hw. unfold output_filename.
      now rewrite Hout.
    + unfold auto_filename. destruct (testnet o); vm_compute; discriminate.
Qed.

Lemma returned_filename_witness :
  encrypt_reply all_up hello_options = inr artifact
  /\ fst (encryptText all_up hello_options)
     = Return (mkEncrypted artifact (Some (js "auto-generated")))
  /\ files_written (snd (encryptText all_up hello_options))
     = [(js "encrypted-mainnet-round-100-2026-11-02T09-58-12.age", artifact)].
Proof.
  destruct (returned_filename all_up hello_options artifact eq_refl
              (fun _ => eq_refl)) as [Hret Hfile].
  split; [reflexivity|]. split; [rewrite Hret; reflexivity|].
  rewrite (proj1 (Hfile eq_refl eq_refl)). vm_compute. reflexivity.
Defined.

(** Property X9.  When the encryption succeeds and the file write throws (in
    a run that is neither streaming nor quiet), the success line is already
    on standard output, the write error is reported on standard error under
    the heading of an encryption failure, no file is recorded and the error
    is rethrown. *)
Theorem write_failure_reported_as_encryption_failure (env : Env)
  (o : Options) (a : jsstring) (e : js_error) :
  stdout o = false -> quiet o = false ->
  encrypt_reply env o = inr a ->
  writeFileSync_reply env (output_filename env o) a = Some e ->
  fst (encryptText env o) = Throw e
  /\ files_written (snd (encryptText env o)) = []
  /\ In (js "✅ Encryption successful!" ++ nl)
        (stdout_chunks (snd (encryptText env o)))
  /\ stderr_chunks (snd (encryptText env o)) =
     ((js "❌ Encryption failed: " ++ message e) ++ nl)
     :: (if verbose o
         then [(js "Full error: " ++ inspect env e) ++ nl] else []).
Proof.
  intros Hs Hq Ha Hw.
  rewrite encryptText_files, Hs, Ha, Hw.
  prepare o. subst ostdout oquiet.
  destruct otestnet, overbose; cbv beta iota in *;
    unfold encryptText;
    cbn [text round output testnet verbose stdout quiet negb andb];
    run_m; repeat (case_reply; run_m); cbn;
    repeat split; auto 10.
Qed.

Lemma write_failure_reported_as_encryption_failure_witness :
  encrypt_reply write_down hello_options = inr artifact
  /\ writeFileSync_reply write_down
       (output_filename write_down hello_options) artifact = Some disk_full
  /\ fst (encryptText write_down hello_options) = Throw disk_full
  /\ stderr_chunks (snd (encryptText write_down hello_options))
     = [(js "❌ Encryption failed: " ++ js "ENOSPC: no space left on device") ++ nl].
Proof.
  destruct (write_failure_reported_as_encryption_failure write_down
              hello_options artifact disk_full eq_refl eq_refl eq_refl eq_refl)
    as (Hthrow & _ & _ & Herr).
  split; [reflexivity|]. split; [reflexivity|]. split; [exact Hthrow|].
  rewrite Herr. reflexivity.
Defined.

Lemma firstn_drop_tail {A} (l1 l2 : list A) (k : nat) :
  List.length l2 = k ->
  firstn (List.length (l1 ++ l2) - k) (l1 ++ l2) = l1.
Proof.
  intros <-. rewrite length_app, Nat.add_sub, firstn_app, Nat.sub_diag.
  rewrite firstn_all. cbn. apply app_nil_r.
Qed.

(** Property X14.  The timestamp of a generated file name is the ISO time
    without its last five characters (the milliseconds and the zone letter),
    colons and periods replaced: two runs whose clocks differ only there,
    with the same options, get the same file name. *)
Theorem filename_has_second_granularity (env1 env2 : Env) (o : Options)
  (stem tail1 tail2 : jsstring) :
  Date_toISOString env1 = stem ++ tail1 ->
  Date_toISOString env2 = stem ++ tail2 ->
  List.length tail1 = 5%nat -> List.length tail2 = 5%nat ->
  Number_toString env1 (round o) = Number_toString env2 (round o) ->
  timestamp_of (Date_toISOString env1) = replace_colon_period stem
  /\ auto_filename env1 o = auto_filename env2 o.
Proof.
  intros H1 H2 Hl1 Hl2 Hn.
  assert (Hts : forall tl, List.length tl = 5%nat ->
            timestamp_of (stem ++ tl) = replace_colon_period stem).
  { intros tl Hl. unfold timestamp_of, slice_0_neg, replace_colon_period.
    rewrite map_app. apply firstn_drop_tail. now rewrite length_map. }
  split.
  - rewrite H1. now apply Hts.
  - unfold auto_filename. rewrite H1, H2, Hn, !Hts by assumption.
    reflexivity.
Qed.

Lemma filename_has_second_granularity_witness :
  Date_toISOString all_up = js "2026-11-02T09:58:12" ++ js ".345Z"
  /\ Date_toISOString later_in_the_second
     = js "2026-11-02T09:58:12" ++ js ".999Z"
  /\ auto_filename all_up hello_options
     = auto_filename later_in_the_second hello_options.
Proof.
  split; [vm_compute; reflexivity|]. split; [vm_compute; reflexivity|].
  refine (proj2 (filename_has_second_granularity all_up later_in_the_second
                   hello_options (js "2026-11-02T09:58:12")
                   (js ".345Z") (js ".999Z") _ _ _ _ _));
    vm_compute; reflexivity.
Defined.

Lemma denotes_unique (r : number) (z z' : Z) :
  denotes r z -> denotes r z' -> z = z'.
Proof.
  intros (q & Hq & Hz) (q' & Hq' & Hz'). rewrite Hq in Hq'.
  injection Hq' as <-. rewrite Hz in Hz'.
  unfold Qeq, inject_Z in Hz'. cbn [Qnum Qden] in Hz'. lia.
Qed.

Lemma finite_pos_not_below_one (m : positive) (e z : Z) :
  bounded prec emax m e = true ->
  denotes (S754_finite false m e) z ->
  (1 <= z)%Z /\ lt (S754_finite false m e) one = false.
Proof.
  intros Hb Hz. apply bounded_facts in Hb as (Hm & He & Hnorm).
  apply denotes_finite_pos in Hz.
  change (2 ^ 53)%Z with 9007199254740992%Z in *.
  change (2 ^ 52)%Z with 4503599627370496%Z in *.
  assert (Hz1 : (1 <= z)%Z).
  { destruct e as [|p|p].
    - lia.
    - pose proof (Z.pow_pos_nonneg 2 (Zpos p) ltac:(lia) ltac:(lia)). nia.
    - pose proof (Z.pow_pos_nonneg 2 (Zpos p) ltac:(lia) ltac:(lia)). nia. }
  split; [exact Hz1|].
  unfold lt, SFltb, one, SFcompare.
  destruct (Z.compare_spec e (-52)) as [He52|He52|He52]; try reflexivity.
  - subst e. specialize (Hnorm ltac:(lia)).
    destruct (Pos.compare_cont Eq m 4503599627370496) eqn:Hc; try reflexivity.
    apply (proj1 (compare_cont_Eq_Lt _ _)) in Hc. lia.
  - exfalso. destruct e as [|p|p]; try lia.
    assert (Hp : (2 ^ 53 <= 2 ^ Zpos p)%Z) by (apply Z.pow_le_mono_r; lia).
    change (2 ^ 53)%Z with 9007199254740992%Z in Hp. nia.
Qed.

(** Property X15.  [validateRound] tells its three failures apart, in this
    order: a Number that is no integer ([NaN], an infinity, a fraction) is
    refused as not an integer, an integer below 1 as too small, an integer
    above 2^53 - 1 as too large. *)
Theorem validateRound_messages (r : number) :
  is_double r = true ->
  ((forall z, ~ denotes r z) ->
   validateRound r = Throw (Error (js "Round number must be an integer")))
  /\ (forall z, denotes r z -> (z < 1)%Z ->
      validateRound r = Throw (Error (js "Round number must be at least 1")))
  /\ (forall z, denotes r z -> (2 ^ 53 - 1 < z)%Z ->
      validateRound r = Throw (Error (js "Round number is too large"))).
Proof.
  intros Hv. split; [|split].
  - intros Hno. unfold validateRound.
    destruct (Number_isInteger r) eqn:Hi; [|reflexivity].
    apply Number_isInteger_iff in Hi as [z Hz]. now destruct (Hno z).
  - intros z Hz Hlt. unfold validateRound.
    rewrite (proj2 (Number_isInteger_iff r) (ex_intro _ z Hz)). cbn [negb].
    destruct r as [s|s| |s m e].
    + reflexivity.
    + destruct Hz as (q & Hq & _). discriminate.
    + destruct Hz as (q & Hq & _). discriminate.
    + destruct s; [reflexivity|].
      apply (finite_pos_not_below_one m e z Hv) in Hz. lia.
  - intros z Hz Hgt. unfold validateRound.
    rewrite (proj2 (Number_isInteger_iff r) (ex_intro _ z Hz)). cbn [negb].
    destruct r as [s|s| |s m e].
    + apply denotes_zero in Hz. lia.
    + destruct Hz as (q & Hq & _). discriminate.
    + destruct Hz as (q & Hq & _). discriminate.
    + destruct s; [apply denotes_negative in Hz; lia|].
      destruct (finite_pos_not_below_one m e z Hv Hz) as [_ Hlt].
      rewrite Hlt.
      destruct (gt (S754_finite false m e) MAX_SAFE_INTEGER) eqn:Hg;
        [reflexivity|].
      exfalso.
      assert (Hin : exists z', denotes (S754_finite false m e) z'
                               /\ (1 <= z' <= 2 ^ 53 - 1)%Z).
      { apply (finite_pos_in_range m e Hv). repeat split; auto.
        apply Number_isInteger_iff. now exists z. }
      destruct Hin as (z' & Hz' & Hr).
      rewrite (denotes_unique _ _ _ Hz Hz') in Hgt. lia.
Qed.

Lemma validateRound_messages_witness :
  is_double (of_Z (2 ^ 53)) = true
  /\ denotes (of_Z (2 ^ 53)) (2 ^ 53)
  /\ validateRound (of_Z (2 ^ 53))
     = Throw (Error (js "Round number is too large")).
Proof.
  assert (Hd : denotes (of_Z (2 ^ 53)) (2 ^ 53))
    by (eexists; split; reflexivity).
  split; [reflexivity|]. split; [exact Hd|].
  apply (proj2 (proj2 (validateRound_messages (of_Z (2 ^ 53)) eq_refl))
           (2 ^ 53)%Z Hd).
  vm_compute. reflexivity.
Defined.

(** Property X16.  The example's [encryptText], given a round that is not
    below 1 and a text that is not blank, calls the encryption primitive
    once with the round, the UTF-8 bytes of the text and the client, returns
    what it returns, and on failure logs the error on standard error and
    rethrows it. *)
Theorem example_encryptText_call (env : Env) (t : jsstring) (r : number)
  (c : client) :
  lt r one = false -> text_is_blank t = false ->
  network_calls (snd (EncryptArbitraryText.encryptText env t r c))
  = [Encrypt r (utf8_encode t) c]
  /\ fst (EncryptArbitraryText.encryptText env t r c)
     = match timelockEncrypt_reply env r (utf8_encode t) c with
       | inr a => Return a
       | inl e => Throw e
       end
  /\ stderr_chunks (snd (EncryptArbitraryText.encryptText env t r c))
     = match timelockEncrypt_reply env r (utf8_encode t) c with
       | inr _ => []
       | inl e => [(js "❌ Encryption failed: " ++ inspect env e) ++ nl]
       end.
Proof.
  intros Hr Ht. unfold EncryptArbitraryText.encryptText. rewrite Hr, Ht.
  run_m. destruct (timelockEncrypt_reply env r (utf8_encode t) c);
    repeat split; reflexivity.
Qed.

Lemma example_encryptText_call_witness :
  lt (of_Z 100) one = false /\ text_is_blank (js "Hello") = false
  /\ fst (EncryptArbitraryText.encryptText all_up (js "Hello") (of_Z 100)
            Testnet)
     = Return artifact
  /\ network_calls
       (snd (EncryptArbitraryText.encryptText encrypt_down (js "Hello")
               (of_Z 100) Testnet))
     = [Encrypt (of_Z 100) (utf8_encode (js "Hello")) Testnet].
Proof.
  split; [reflexivity|]. split; [vm_compute; reflexivity|]. split.
  - rewrite (proj1 (proj2 (example_encryptText_call all_up (js "Hello")
                             (of_Z 100) Testnet eq_refl
                             ltac:(vm_compute; reflexivity)))).
    reflexivity.
  - exact (proj1 (example_encryptText_call encrypt_down (js "Hello")
                    (of_Z 100) Testnet eq_refl
                    ltac:(vm_compute; reflexivity))).
Defined.


Lemma nan_is_not_below_one (r : number) : isNaN r = true -> lt r one = false.
Proof. destruct r; try discriminate. reflexivity. Qed.

Lemma bind_returns {A B} (m : M A) (k : A -> M B) (a : A) :
  fst m = Return a -> bind m k = (fst (k a), snd m ++ snd (k a)).
Proof.
  destruct m as [o t]. cbn. intros ->. cbn. now destruct (k a).
Qed.

Lemma network_calls_app (t1 t2 : list effect) :
  network_calls (t1 ++ t2) = network_calls t1 ++ network_calls t2.
Proof. apply filter_app. Qed.




Ltac run_fixed_example :=
  unfold ExampleScript.exampleMainnet, ExampleScript.exampleFutureRound, ExampleScript.exampleTestnet,
    EncryptArbitraryText.encryptText, ExampleScript.console_error_with;
  match goal with
  | |- context [lt ?r one] => change (lt r one) with false
  end;
  match goal with
  | |- context [text_is_blank ?t] => change (text_is_blank t) with false
  end;
  cbv beta iota; split_replies; repeat split; reflexivity.

Lemma exampleMainnet_run (env : Env) :
  fst (ExampleScript.exampleMainnet env) = Return tt
  /\ network_calls (snd (ExampleScript.exampleMainnet env))
     = [NewClient Mainnet;
        Encrypt (of_Z 11645812)
          (utf8_encode (js "This is a secret message for mainnet!")) Mainnet].
Proof. run_fixed_example. Qed.

Lemma exampleFutureRound_run (env : Env) :
  fst (ExampleScript.exampleFutureRound env) = Return tt
  /\ network_calls (snd (ExampleScript.exampleFutureRound env))
     = [NewClient Mainnet;
        Encrypt (of_Z 12000000)
          (utf8_encode (js "This message will be decryptable much later!"))
          Mainnet].
Proof. run_fixed_example. Qed.

Lemma exampleTestnet_run (env : Env) :
  fst (ExampleScript.exampleTestnet env) = Return tt
  /\ network_calls (snd (ExampleScript.exampleTestnet env))
     = [NewClient Testnet;
        Encrypt (of_Z 20000)
          (utf8_encode (js "Testnet message with shorter timelock!")) Testnet].
Proof. run_fixed_example. Qed.

Lemma getCurrentRoundInfo_run (env : Env) (public_key : jsstring)
  (c : client) :
  fst (ExampleScript.getCurrentRoundInfo env public_key c) = Return tt
  /\ network_calls (snd (ExampleScript.getCurrentRoundInfo env public_key c))
     = [ChainInfoRequest c].
Proof.
  unfold ExampleScript.getCurrentRoundInfo, ExampleScript.console_error_with. split_replies;
    split; reflexivity.
Qed.

Lemma exampleCustom_fixed_run (env : Env) :
  fst (ExampleScript.exampleCustom env ExampleScript.customText ExampleScript.customRound) = Return tt
  /\ network_calls (snd (ExampleScript.exampleCustom env ExampleScript.customText ExampleScript.customRound))
     = [NewClient Mainnet;
        Encrypt ExampleScript.customRound (utf8_encode ExampleScript.customText) Mainnet].
Proof. unfold ExampleScript.exampleCustom. run_fixed_example. Qed.

Lemma ends_with_app {A} (l1 l2 suffix : list A) :
  (exists p, l2 = p ++ suffix) -> exists p, l1 ++ l2 = p ++ suffix.
Proof. intros [p ->]. exists (l1 ++ p). apply app_assoc. Qed.

Lemma ends_with_cons {A} (a : A) (l suffix : list A) :
  (exists p, l = p ++ suffix) -> exists p, a :: l = p ++ suffix.
Proof. intros [p ->]. now exists (a :: p). Qed.

Ltac find_suffix :=
  first [ exists []; reflexivity
        | apply ends_with_app; find_suffix
        | apply ends_with_cons; find_suffix ].

Ltac known_run H :=
  let Hf := fresh "Hfst" in
  let Hn := fresh "Hnet" in
  destruct H as [Hf Hn];
  match type of Hf with
  | fst ?m = _ =>
      let o := fresh "o" in
      let t := fresh "t" in
      destruct m as [o t]; cbn [fst snd] in Hf, Hn; subst o
  end.

(** Property X18.  The example script always ends normally, whatever fails:
    it makes the same ten client constructions and remote calls in the same
    order (one chain-info query, then the four encryptions, each on a client
    of its own), and always ends its standard output with the seven summary
    lines, the line claiming that encrypted files were created among them. *)
Theorem example_script_always_completes (env : Env) (public_key : jsstring) :
  fst (ExampleScript.script env public_key) = Return tt
  /\ network_calls (snd (ExampleScript.script env public_key))
     = [NewClient Mainnet; ChainInfoRequest Mainnet;
        NewClient Mainnet;
        Encrypt (of_Z 11645812)
          (utf8_encode (js "This is a secret message for mainnet!")) Mainnet;
        NewClient Mainnet;
        Encrypt (of_Z 12000000)
          (utf8_encode (js "This message will be decryptable much later!"))
          Mainnet;
        NewClient Testnet;
        Encrypt (of_Z 20000)
          (utf8_encode (js "Testnet message with shorter timelock!")) Testnet;
        NewClient Mainnet;
        Encrypt ExampleScript.customRound (utf8_encode ExampleScript.customText) Mainnet]
  /\ exists before,
       stdout_chunks (snd (ExampleScript.script env public_key))
       = before
         ++ [(nl ++ js "=== Summary ===") ++ nl;
             js "✅ Created encrypted files for different rounds" ++ nl;
             js "✅ Each file can only be decrypted after its target round" ++ nl;
             js "✅ Files include filekey hash for verification" ++ nl;
             (nl ++ js "📚 To decrypt later, use:") ++ nl;
             js "   const decrypted = await timelockDecrypt(encryptedContent, client);" ++ nl;
             (nl ++ js "🔗 For more info: https://github.com/drand/tlock-js") ++ nl].
Proof.
  pose proof (getCurrentRoundInfo_run env public_key Mainnet) as Hg.
  pose proof (exampleMainnet_run env) as H1.
  pose proof (exampleFutureRound_run env) as H2.
  pose proof (exampleTestnet_run env) as H3.
  pose proof (exampleCustom_fixed_run env) as H4.
  unfold ExampleScript.script, ExampleScript.main. run_m.
  known_run Hg. known_run H1. known_run H2. known_run H3. known_run H4.
  cbv beta iota. cbn [fst snd]. split; [reflexivity|]. split.
  - rewrite !network_calls_app, Hnet, Hnet0, Hnet1, Hnet2, Hnet3.
    reflexivity.
  - unfold stdout_chunks. rewrite !flat_map_app. cbn [flat_map app].
    find_suffix.
Qed.

(** Property X19.  The simple-usage script always ends normally.  It makes
    one encryption call on a mainnet client; a failure of the encryption or
    of the write is reported twice on standard error, by [simpleEncrypt] and
    by the final [catch]; the file is written only when both succeed. *)
Theorem simple_usage_reports_twice (env : Env) :
  let buf := utf8_encode SimpleUsage.text in
  let filename :=
    js "secret-message-round-" ++ Number_toString env SimpleUsage.round
      ++ js ".age" in
  let failure :=
    match timelockEncrypt_reply env SimpleUsage.round buf Mainnet with
    | inl e => Some e
    | inr a => writeFileSync_reply env filename a
    end in
  fst (SimpleUsage.script env) = Return tt
  /\ network_calls (snd (SimpleUsage.script env))
     = [NewClient Mainnet; Encrypt SimpleUsage.round buf Mainnet]
  /\ stderr_chunks (snd (SimpleUsage.script env))
     = match failure with
       | Some e => [(js "❌ Encryption failed: " ++ inspect env e) ++ nl;
                    inspect env e ++ nl]
       | None => []
       end
  /\ files_written (snd (SimpleUsage.script env))
     = match timelockEncrypt_reply env SimpleUsage.round buf Mainnet, failure
       with
       | inr a, None => [(filename, a)]
       | _, _ => []
       end.
Proof.
  cbv zeta. unfold SimpleUsage.script, SimpleUsage.simpleEncrypt.
  split_replies; repeat split; reflexivity.
Qed.

Lemma digit_is_not_whitespace (u : code_unit) :
  is_decimal_digit u = true -> is_whitespace u = false.
Proof.
  unfold is_decimal_digit, is_whitespace. intros H.
  apply andb_true_iff in H as [H1 H2].
  apply N.leb_le in H1. apply N.leb_le in H2.
  repeat match goal with
         | |- context [(?a <=? ?b)%N] =>
             destruct (N.leb_spec a b); try lia
         | |- context [(?a =? ?b)%N] =>
             destruct (N.eqb_spec a b); try lia
         end; reflexivity.
Qed.

Lemma digit_value_decimal (u : code_unit) :
  digit_value 10 u = if is_decimal_digit u then Some (Z.of_N u - 48)%Z else None.
Proof.
  unfold digit_value, is_decimal_digit.
  destruct ((48 <=? u) && (u <=? 57))%N eqn:Hd.
  - apply andb_true_iff in Hd as [H1 H2].
    apply N.leb_le in H1. apply N.leb_le in H2.
    destruct (Z.ltb_spec (Z.of_N u - 48) 10); [reflexivity | lia].
  - destruct ((97 <=? u) && (u <=? 122))%N eqn:Hl.
    + apply andb_true_iff in Hl as [H1 _]. apply N.leb_le in H1.
      destruct (Z.ltb_spec (Z.of_N u - 87) 10); [lia | reflexivity].
    + destruct ((65 <=? u) && (u <=? 90))%N eqn:Hu; [|reflexivity].
      apply andb_true_iff in Hu as [H1 _]. apply N.leb_le in H1.
      destruct (Z.ltb_spec (Z.of_N u - 55) 10); [lia | reflexivity].
Qed.

Lemma radix_digits_suffix (ds rest : jsstring) :
  forallb is_decimal_digit ds = true ->
  match rest with u :: _ => is_decimal_digit u = false | [] => True end ->
  radix_digits 10 (ds ++ rest) = radix_digits 10 ds.
Proof.
  intros Hds Hrest. induction ds as [|d ds IH].
  - destruct rest as [|u r]; [reflexivity|].
    cbn. now rewrite digit_value_decimal, Hrest.
  - cbn [forallb] in Hds. apply andb_true_iff in Hds as [Hd Hds].
    cbn. rewrite digit_value_decimal, Hd. now rewrite (IH Hds).
Qed.

Lemma parseInt_leading_integer (digits rest : jsstring) :
  leading_integer digits rest ->
  parseInt (digits ++ rest) = parseInt digits.
Proof.
  intros [Hdigits Hrest]. destruct digits as [|d ds]; [destruct Hdigits|].
  destruct Hdigits as (Hd & Hnz & Hds).
  assert (Hall : forallb is_decimal_digit (d :: ds) = true)
    by (cbn; now rewrite Hd, Hds).
  pose proof (radix_digits_suffix (d :: ds) rest Hall Hrest) as Hrd.
  assert (Hshape : forall l,
            parseInt (d :: l) =
            match radix_digits 10 (d :: l) with
            | [] => S754_nan
            | x :: xs =>
                if (math_int 10 (x :: xs) =? 0)%Z then S754_zero false
                else of_Z (math_int 10 (x :: xs))
            end).
  { intros l. unfold parseInt. cbn [trimStart].
    rewrite (digit_is_not_whitespace d Hd). unfold strip_sign.
    unfold is_decimal_digit in Hd. apply andb_true_iff in Hd as [H1 H2].
    apply N.leb_le in H1. apply N.leb_le in H2.
    destruct (N.eqb_spec d 45); [lia|]. destruct (N.eqb_spec d 43); [lia|].
    unfold strip_hex_prefix.
    destruct l as [|x r]; [reflexivity|].
    destruct (N.eqb_spec d 48); [contradiction|]. reflexivity. }
  change ((d :: ds) ++ rest) with (d :: ds ++ rest) in *.
  now rewrite !Hshape, Hrd.
Qed.

(** Property X5.  A round token that starts with decimal digits (the first
    not [0]) parses as those digits alone: whatever follows them, such as a
    fraction or a unit, changes neither the round nor the outcome of
    parsing. *)
Theorem round_token_suffix_ignored (argv1 argv2 : list jsstring)
  (text digits rest : jsstring) (flags : list jsstring) :
  leading_integer digits rest ->
  skipn 2 argv1 = text :: (digits ++ rest) :: flags ->
  skipn 2 argv2 = text :: digits :: flags ->
  no_help (text :: (digits ++ rest) :: flags) ->
  no_help (text :: digits :: flags) ->
  parseInt (digits ++ rest) = parseInt digits
  /\ parseArgs argv1 = parseArgs argv2.
Proof.
  intros Hlead H1 H2 Hh1 Hh2.
  pose proof (parseInt_leading_integer _ _ Hlead) as Hp.
  split; [exact Hp|].
  rewrite (parseArgs_positionals _ _ _ _ H1 Hh1).
  rewrite (parseArgs_positionals _ _ _ _ H2 Hh2).
  unfold initial_options. now rewrite Hp.
Qed.

Lemma round_token_suffix_ignored_witness :
  leading_integer (js "100") (js ".75 rounds")
  /\ parseArgs suffixed_round_argv = (Return hello_options, []).
Proof.
  assert (Hl : leading_integer (js "100") (js ".75 rounds")).
  { vm_compute. repeat split. discriminate. }
  split; [exact Hl|].
  rewrite (proj2 (round_token_suffix_ignored suffixed_round_argv plain_argv
                    (js "Hello") (js "100") (js ".75 rounds") []
                    Hl eq_refl eq_refl
                    ltac:(vm_compute; reflexivity)
                    ltac:(vm_compute; reflexivity))).
  vm_compute. reflexivity.
Defined.



(* ================================================================== *)
(** * The script as a process *)

Import NodeProcess.

Lemma stderr_chunks_app (t1 t2 : list effect) :
  stderr_chunks (t1 ++ t2) = stderr_chunks t1 ++ stderr_chunks t2.
Proof. apply flat_map_app. Qed.





(** Property X10.  In a parsed run with [quiet] set the program writes
    nothing on standard error and no file, and never queries the chain info.
    When the encryption succeeds the process ends with status 0 and standard
    error stays empty; when it fails the process ends with status 1 and
    standard error holds the runtime's report of the [ReferenceError] raised
    in the [catch] block of [main], and nothing else. *)
Theorem quiet_run_stderr (uncaught_report : js_error -> jsstring)
  (env : Env) (process_argv : list jsstring) (o : Options) (t : list effect) :
  parseArgs process_argv = (Return o, t) ->
  quiet o = true ->
  let run := run_as_script uncaught_report env process_argv in
  stderr_chunks (snd (CliEncrypt.main env process_argv)) = []
  /\ stderr_chunks (snd run)
     = match encrypt_reply env o with
       | inr _ => []
       | inl _ => [uncaught_report options_not_defined]
       end
  /\ fst run = match encrypt_reply env o with inr _ => 0%Z | inl _ => 1%Z end
  /\ files_written (snd run) = []
  /\ network_calls (snd run)
     = [NewClient (client_of o);
        Encrypt (round o) (utf8_encode (text o)) (client_of o)].
Proof.
  intros Hparse Hq. cbv zeta. unfold run_as_script.
  rewrite (main_trace env _ _ _ Hparse).
  rewrite (main_of_parse_return env _ _ _ Hparse).
  apply parseArgs_return in Hparse
    as (_ & _ & _ & _ & _ & _ & _ & _ & _ & Hinv & _).
  rewrite Hq in Hinv. destruct (stdout o) eqn:Hs; [|discriminate].
  unfold main_after_parse.
  rewrite (encryptText_quiet_stdout env o Hq Hs), Hq.
  destruct (encrypt_reply env o); run_m; cbn; auto 10.
Qed.

Lemma quiet_run_stderr_witness :
  parseArgs quiet_stream_argv = (Return quiet_stream_options, [])
  /\ quiet quiet_stream_options = true
  /\ stderr_chunks
       (snd (run_as_script sample_report encrypt_down quiet_stream_argv))
     = [js "Uncaught ReferenceError: options is not defined" ++ nl]
  /\ stderr_chunks
       (snd (run_as_script sample_report all_up quiet_stream_argv)) = [].
Proof.
  assert (Hp : parseArgs quiet_stream_argv = (Return quiet_stream_options, []))
    by (vm_compute; reflexivity).
  split; [exact Hp|]. split; [reflexivity|]. split.
  - rewrite (proj1 (proj2 (quiet_run_stderr sample_report encrypt_down
                             _ _ _ Hp eq_refl))).
    vm_compute. reflexivity.
  - rewrite (proj1 (proj2 (quiet_run_stderr sample_report all_up
                             _ _ _ Hp eq_refl))).
    reflexivity.
Defined.

(* ================================================================== *)
(** * The round token *)

(** ** Rounding a positive integer to a Number *)

Lemma digits2_pos_unique (m : positive) (n : Z) :
  (2 ^ (n - 1) <= Zpos m < 2 ^ n)%Z -> Zpos (digits2_pos m) = n.
Proof.
  intros [Hlo Hhi]. pose proof (digits2_pos_bounds m) as [Hlo' Hhi'].
  set (d := Zpos (digits2_pos m)) in *.
  assert (Hd : (0 < d)%Z) by (subst d; lia).
  assert (Hn : (0 < n)%Z).
  { destruct n as [|n|n]; [cbn in Hhi; lia|lia|].
    rewrite Z.pow_neg_r in Hhi by lia. lia. }
  destruct (Z.lt_trichotomy d n) as [H|[H|H]]; [|exact H|].
  - pose proof (Z.pow_le_mono_r 2 d (n - 1) ltac:(lia) ltac:(lia)). lia.
  - pose proof (Z.pow_le_mono_r 2 n (d - 1) ltac:(lia) ltac:(lia)). lia.
Qed.

Lemma digits2_pos_iter_xO (k m : positive) :
  digits2_pos (Pos.iter xO m k) = (digits2_pos m + k)%positive.
Proof.
  induction k as [|k IH] using Pos.peano_ind.
  - cbn. lia.
  - rewrite Pos.iter_succ. cbn [digits2_pos]. rewrite IH. lia.
Qed.

Lemma shr_1_digits (mrs : shr_record) (p : positive) :
  shr_m mrs = Zpos p -> (1 < Zpos (digits2_pos p))%Z ->
  exists p', shr_m (shr_1 mrs) = Zpos p'
             /\ Zpos (digits2_pos p') = (Zpos (digits2_pos p) - 1)%Z.
Proof.
  destruct mrs as [m r s]. cbn [shr_m]. intros -> Hd.
  destruct p as [p|p|]; cbn [digits2_pos] in *; [| |lia];
    exists p; (split; [reflexivity|rewrite Pos2Z.inj_succ; lia]).
Qed.

Lemma iter_shr_1_digits (k : positive) :
  forall (mrs : shr_record) (p : positive),
    shr_m mrs = Zpos p -> (Zpos k < Zpos (digits2_pos p))%Z ->
    exists p', shr_m (iter_pos shr_1 k mrs) = Zpos p'
               /\ Zpos (digits2_pos p') = (Zpos (digits2_pos p) - Zpos k)%Z.
Proof.
  induction k as [k IH|k IH|]; intros mrs p Hm Hd; cbn [iter_pos].
  - destruct (shr_1_digits mrs p Hm ltac:(lia)) as (p1 & H1 & D1).
    destruct (IH _ _ H1 ltac:(lia)) as (p2 & H2 & D2).
    destruct (IH _ _ H2 ltac:(lia)) as (p3 & H3 & D3).
    exists p3. split; [exact H3|]. lia.
  - destruct (IH _ _ Hm ltac:(lia)) as (p2 & H2 & D2).
    destruct (IH _ _ H2 ltac:(lia)) as (p3 & H3 & D3).
    exists p3. split; [exact H3|]. lia.
  - destruct (shr_1_digits mrs p Hm ltac:(lia)) as (p1 & H1 & D1).
    exists p1. split; [exact H1|]. lia.
Qed.

(** A mantissa of 53 binary digits needs no shift. *)
Lemma shr_fexp_53 (q : positive) (e : Z) :
  Zpos (digits2_pos q) = 53%Z -> (-52 <= e)%Z ->
  shr_fexp prec emax (Zpos q) e loc_Exact
  = ({| shr_m := Zpos q; shr_r := false; shr_s := false |}, e).
Proof.
  intros Hd He. unfold shr_fexp, fexp, emin, prec, emax. cbn [Zdigits2].
  rewrite Hd.
  replace (Z.max (53 + e - 53) (3 - 1024 - 53) - e)%Z with 0%Z by lia.
  reflexivity.
Qed.

(** After rounding, the mantissa has 53 digits or is 2^53, which one more
    shift brings back to 53 digits. *)
Lemma round_aux_tail (q : positive) (e : Z) :
  (Zpos (digits2_pos q) = 53 \/ Zpos q = 2 ^ 53)%Z -> (-52 <= e)%Z ->
  let '(mrs, e') := shr_fexp prec emax (Zpos q) e loc_Exact in
  exists m, shr_m mrs = Zpos m /\ Zpos (digits2_pos m) = 53%Z /\ (-52 <= e')%Z.
Proof.
  intros [Hd|Hq] He.
  - rewrite (shr_fexp_53 q e Hd He). exists q. auto.
  - change (2 ^ 53)%Z with 9007199254740992%Z in Hq. injection Hq as ->.
    unfold shr_fexp, fexp, emin, prec, emax. cbn [Zdigits2].
    change (Zpos (digits2_pos 9007199254740992)) with 54%Z.
    replace (Z.max (54 + e - 53) (3 - 1024 - 53) - e)%Z with 1%Z by lia.
    cbn. eexists. split; [reflexivity|]. split; [reflexivity|lia].
Qed.

Lemma round_nearest_even_digits (p : positive) (l : location) :
  Zpos (digits2_pos p) = 53%Z ->
  exists q, round_nearest_even (Zpos p) l = Zpos q
            /\ (Zpos (digits2_pos q) = 53 \/ Zpos q = 2 ^ 53)%Z.
Proof.
  intros Hd. pose proof (digits2_pos_bounds p) as Hb. rewrite Hd in Hb.
  assert (Hs : exists q, (Zpos p + 1)%Z = Zpos q
                         /\ (Zpos (digits2_pos q) = 53 \/ Zpos q = 2 ^ 53)%Z).
  { exists (p + 1)%positive. split; [lia|].
    destruct (Z.eq_dec (Zpos (p + 1)) (2 ^ 53)) as [|Hne]; [now right|left].
    apply digits2_pos_unique. lia. }
  assert (Hk : exists q, Zpos p = Zpos q
                         /\ (Zpos (digits2_pos q) = 53 \/ Zpos q = 2 ^ 53)%Z)
    by (exists p; auto).
  unfold round_nearest_even.
  destruct l as [|[| |]]; auto. destruct (Z.even (Zpos p)); auto.
Qed.

Lemma binary_round_aux_shape (p : positive) (e : Z) :
  (53 <= Zpos (digits2_pos p))%Z -> (-52 <= e)%Z ->
  (exists m e', binary_round_aux prec emax false (Zpos p) e loc_Exact
                = S754_finite false m e'
                /\ Zpos (digits2_pos m) = 53%Z /\ (-52 <= e')%Z)
  \/ binary_round_aux prec emax false (Zpos p) e loc_Exact
     = S754_infinity false.
Proof.
  intros Hd He. unfold binary_round_aux.
  assert (H1 : exists mrs e1 p1,
             shr_fexp prec emax (Zpos p) e loc_Exact = (mrs, e1)
             /\ shr_m mrs = Zpos p1 /\ Zpos (digits2_pos p1) = 53%Z
             /\ (-52 <= e1)%Z).
  { destruct (Z.eq_dec (Zpos (digits2_pos p)) 53) as [H53|Hne].
    - rewrite (shr_fexp_53 p e H53 He). eexists _, _, p.
      split; [reflexivity|]. split; [reflexivity|]. split; assumption.
    - unfold shr_fexp, fexp, emin, prec, emax. cbn [Zdigits2].
      set (d := Zpos (digits2_pos p)) in *.
      replace (Z.max (d + e - 53) (3 - 1024 - 53) - e)%Z
        with (d - 53)%Z by lia.
      destruct (d - 53)%Z as [|k|k] eqn:Hk; try lia.
      unfold shr.
      destruct (iter_shr_1_digits k {| shr_m := Zpos p; shr_r := false;
                                       shr_s := false |} p eq_refl
                  ltac:(fold d; lia)) as (p1 & Hm & Hd1).
      fold d in Hd1. eexists _, _, p1. split; [reflexivity|].
      split; [exact Hm|]. split; lia. }
  destruct H1 as (mrs & e1 & p1 & -> & Hm & Hd1 & He1). rewrite Hm.
  destruct (round_nearest_even_digits p1 (loc_of_shr_record mrs) Hd1)
    as (q & -> & Hq).
  pose proof (round_aux_tail q e1 Hq He1) as Ht.
  destruct (shr_fexp prec emax (Zpos q) e1 loc_Exact) as [mrs2 e2].
  destruct Ht as (m & -> & Hdm & He2).
  destruct (e2 <=? emax - prec)%Z; [left|right; reflexivity].
  exists m, e2. auto.
Qed.

(** The Number of a positive integer is a normal positive Number of
    exponent at least -52, or [Infinity]. *)
Lemma of_Z_pos_shape (p : positive) :
  (exists m e, of_Z (Zpos p) = S754_finite false m e
               /\ Zpos (digits2_pos m) = 53%Z /\ (-52 <= e)%Z)
  \/ of_Z (Zpos p) = S754_infinity false.
Proof.
  unfold of_Z, binary_normalize, binary_round, shl_align, fexp, emin, prec,
    emax.
  set (d := Zpos (digits2_pos p)).
  assert (Hd : (0 < d)%Z) by (subst d; lia).
  replace (Z.max (d + 0 - 53) (3 - 1024 - 53) - 0)%Z with (d - 53)%Z by lia.
  replace (Z.max (d + 0 - 53) (3 - 1024 - 53))%Z with (d - 53)%Z by lia.
  destruct (d - 53)%Z as [|k|k] eqn:Hk.
  - apply (binary_round_aux_shape p 0); fold d; lia.
  - apply (binary_round_aux_shape p 0); fold d; lia.
  - apply binary_round_aux_shape; [|lia].
    rewrite digits2_pos_iter_xO. fold d. lia.
Qed.

(** A positive integer never reads as [NaN] nor as a Number below 1. *)
Lemma of_Z_pos_not_below_one (z : Z) :
  (1 <= z)%Z -> isNaN (of_Z z) || lt (of_Z z) one = false.
Proof.
  intros Hz. destruct z as [|p|p]; try lia.
  destruct (of_Z_pos_shape p) as [(m & e & -> & Hd & He)| ->]; [|reflexivity].
  pose proof (digits2_pos_bounds m) as [Hlo _]. rewrite Hd in Hlo.
  change (2 ^ (53 - 1))%Z with 4503599627370496%Z in Hlo.
  unfold lt, SFltb, one, SFcompare. cbn [isNaN orb].
  destruct (Z.compare_spec e (-52)) as [He52|He52|He52];
    try reflexivity; [|lia].
  destruct (Pos.compare_cont Eq m 4503599627370496) eqn:Hc; try reflexivity.
  apply (proj1 (compare_cont_Eq_Lt _ _)) in Hc. lia.
Qed.

(** No Number above [Number.MAX_SAFE_INTEGER] is [NaN] or below 1. *)
Lemma above_safe_limit_not_below_one (r : number) :
  gt r MAX_SAFE_INTEGER = true -> isNaN r || lt r one = false.
Proof.
  unfold gt, lt, SFltb, MAX_SAFE_INTEGER, one, SFcompare.
  destruct r as [s|s| |s m e]; try discriminate.
  - now destruct s.
  - destruct s; [discriminate|]. cbn [isNaN orb].
    destruct (Z.compare_spec 0 e) as [H0|H0|H0]; try discriminate.
    + subst e. reflexivity.
    + intros _. destruct (Z.compare_spec e (-52)); try reflexivity; lia.
Qed.

(** ** Decimal tokens *)

Lemma radix_digits_decimal (ds : jsstring) :
  forallb is_decimal_digit ds = true ->
  radix_digits 10 ds = map (fun u => Z.of_N u - 48)%Z ds.
Proof.
  induction ds as [|d ds IH]; [reflexivity|].
  cbn [forallb]. intros H. apply andb_true_iff in H as [Hd Hds].
  cbn [radix_digits map]. now rewrite digit_value_decimal, Hd, IH.
Qed.

Lemma fold_digits_positive (ds : jsstring) :
  forallb is_decimal_digit ds = true ->
  forall acc, (1 <= acc)%Z ->
    (1 <= fold_left (fun a d => a * 10 + d)
            (map (fun u => Z.of_N u - 48) ds) acc)%Z.
Proof.
  induction ds as [|d ds IH]; intros Hds acc Hacc; [exact Hacc|].
  cbn [forallb] in Hds. apply andb_true_iff in Hds as [Hd Hds].
  cbn [map fold_left]. apply (IH Hds).
  unfold is_decimal_digit in Hd. apply andb_true_iff in Hd as [H1 _].
  apply N.leb_le in H1. lia.
Qed.

(** A token that starts with a decimal integer not led by [0] is read as a
    positive integer, so it passes the test [isNaN(round) || round < 1]. *)
Lemma leading_integer_passes (digits rest : jsstring) :
  leading_integer digits rest ->
  exists z, (1 <= z)%Z /\ parseInt (digits ++ rest) = of_Z z
            /\ isNaN (parseInt (digits ++ rest))
               || lt (parseInt (digits ++ rest)) one = false.
Proof.
  intros Hlead. rewrite (parseInt_leading_integer _ _ Hlead).
  destruct Hlead as [Hdigits _].
  destruct digits as [|d ds]; [destruct Hdigits|].
  destruct Hdigits as (Hd & Hnz & Hds).
  assert (Hall : forallb is_decimal_digit (d :: ds) = true)
    by (cbn; now rewrite Hd, Hds).
  set (z := math_int 10 (map (fun u => Z.of_N u - 48)%Z (d :: ds))).
  assert (Hz : (1 <= z)%Z).
  { subst z. unfold math_int. cbn [map fold_left].
    apply (fold_digits_positive ds Hds).
    unfold is_decimal_digit in Hd. apply andb_true_iff in Hd as [H1 _].
    apply N.leb_le in H1. lia. }
  assert (Hp : parseInt (d :: ds) = of_Z z).
  { unfold parseInt. cbn [trimStart].
    rewrite (digit_is_not_whitespace d Hd). unfold strip_sign.
    pose proof Hd as Hd'.
    unfold is_decimal_digit in Hd'. apply andb_true_iff in Hd' as [H1 H2].
    apply N.leb_le in H1. apply N.leb_le in H2.
    destruct (N.eqb_spec d 45); [lia|]. destruct (N.eqb_spec d 43); [lia|].
    assert (Hhex : strip_hex_prefix (d :: ds) = (10%Z, d :: ds)).
    { unfold strip_hex_prefix. destruct ds as [|x r]; [reflexivity|].
      destruct (N.eqb_spec d 48); [contradiction|]. reflexivity. }
    rewrite Hhex, (radix_digits_decimal _ Hall). cbn [map].
    change (math_int 10 (Z.of_N d - 48 :: map (fun u => Z.of_N u - 48) ds))%Z
      with z.
    destruct (Z.eqb_spec z 0); [lia|]. reflexivity. }
  exists z. split; [exact Hz|]. split; [exact Hp|].
  rewrite Hp. now apply of_Z_pos_not_below_one.
Qed.

(** With the default options the run begins by building the mainnet
    client. *)
Lemma default_run_builds_client (env : Env) (text tok : jsstring) :
  exists rest,
    network_calls (snd (main_after_parse env (initial_options text tok)))
    = NewClient Mainnet :: rest.
Proof.
  unfold initial_options, main_after_parse, CliEncrypt.encryptText.
  cbn [CliEncrypt.text round output testnet verbose stdout quiet negb andb].
  split_replies; eexists; reflexivity.
Qed.

(** ** The test of the parser *)

(** Claim C3, as amended.  With no help flag and a non-blank text, the one
    test the parser applies to the round is [isNaN(round) || round < 1] on
    [round = parseInt(token)].  A token that fails it ends the run with exit
    code 1 and one line on standard error, before any client is built or any
    remote call made.  A token that passes it is not refused for its round:
    the parse goes on with the flags and, when there are none, returns the
    options with which the run builds its client.  The round of every parsed
    [Options] is the [parseInt] value of the token.  Every value above
    [Number.MAX_SAFE_INTEGER] passes the test, and so does every token made
    of a decimal integer not led by [0] and of a suffix that does not start
    with a digit, which is read as the integer alone. *)
Theorem round_token_guard (process_argv : list jsstring)
  (text tok : jsstring) (flags : list jsstring) :
  skipn 2 process_argv = text :: tok :: flags ->
  no_help (text :: tok :: flags) ->
  text_is_blank text = false ->
  (isNaN (parseInt tok) || lt (parseInt tok) one = true ->
   forall env,
     CliEncrypt.main env process_argv =
     (Exit 1%Z,
      [Stderr (js "❌ Error: Round must be a positive integer" ++ nl)])
     /\ network_calls (snd (CliEncrypt.main env process_argv)) = [])
  /\ (isNaN (parseInt tok) || lt (parseInt tok) one = false ->
      parseArgs process_argv
      = match parse_flags flags (initial_options text tok) with
        | (Return o, _) => validate_options o
        | other => other
        end
      /\ (flags = [] ->
          parseArgs process_argv = (Return (initial_options text tok), [])
          /\ forall env, exists rest,
               network_calls (snd (CliEncrypt.main env process_argv))
               = NewClient Mainnet :: rest))
  /\ (forall o t,
        parseArgs process_argv = (Return o, t) ->
        round o = parseInt tok
        /\ isNaN (round o) = false /\ lt (round o) one = false)
  /\ (gt (parseInt tok) MAX_SAFE_INTEGER = true ->
      isNaN (parseInt tok) || lt (parseInt tok) one = false)
  /\ (forall digits rest,
        tok = digits ++ rest ->
        leading_integer digits rest ->
        parseInt tok = parseInt digits
        /\ isNaN (parseInt tok) || lt (parseInt tok) one = false).
Proof.
  intros Hargs Hhelp Htext.
  pose proof (parseArgs_positionals _ _ _ _ Hargs Hhelp) as Hpos.
  rewrite Htext in Hpos.
  split; [|split; [|split; [|split]]].
  - intros Hbad env. rewrite Hbad in Hpos.
    rewrite (main_of_parse_exit env _ _ _ Hpos). split; reflexivity.
  - intros Hok. rewrite Hok in Hpos. split; [exact Hpos|].
    intros ->. cbn in Hpos. split; [exact Hpos|].
    intros env. rewrite (main_trace env _ _ _ Hpos).
    apply default_run_builds_client.
  - intros o t Hparse.
    apply parseArgs_return in Hparse
      as (text' & tok' & flags' & Hargs' & _ & _ & Hround & Hflags & _).
    rewrite Hargs in Hargs'. injection Hargs' as <- <- <-.
    apply parse_flags_return in Hflags as (_ & _ & Hr).
    cbn [initial_options round] in Hr. rewrite Hr.
    apply orb_false_iff in Hround. auto.
  - apply above_safe_limit_not_below_one.
  - intros digits rest -> Hlead.
    split; [now apply parseInt_leading_integer|].
    now destruct (leading_integer_passes _ _ Hlead) as (z & _ & _ & H).
Qed.

(** Claim C3 as stated fails: a token with a fractional part is accepted as
    its integer prefix and the run goes on to the network, and a token
    beyond the safe-integer limit is accepted as well. *)
Lemma fractional_round_counterexample :
  skipn 2 fractional_argv = [js "Hello"; js "3.7"]
  /\ parseArgs fractional_argv
     = (Return (initial_options (js "Hello") (js "3")), [])
  /\ fst (CliEncrypt.main all_up fractional_argv) = Return tt
  /\ network_calls (snd (CliEncrypt.main all_up fractional_argv))
     = [NewClient Mainnet; Encrypt (of_Z 3) (utf8_encode (js "Hello")) Mainnet]
  /\ parseArgs beyond_safe_argv
     = (Return (mkOptions (js "Hello") (of_Z (2 ^ 53)) None
                  false false false false), [])
  /\ gt (of_Z (2 ^ 53)) MAX_SAFE_INTEGER = true.
Proof. vm_compute. repeat split. Qed.

Lemma round_token_guard_witness :
  skipn 2 zero_round_argv = [js "Hello"; js "0"]
  /\ isNaN (parseInt (js "0")) || lt (parseInt (js "0")) one = true
  /\ CliEncrypt.main all_up zero_round_argv =
     (Exit 1%Z,
      [Stderr (js "❌ Error: Round must be a positive integer" ++ nl)])
  /\ gt (parseInt (js "9007199254740993")) MAX_SAFE_INTEGER = true
  /\ parseArgs beyond_safe_argv
     = (Return (initial_options (js "Hello") (js "9007199254740993")), [])
  /\ leading_integer (js "100") (js ".75 rounds")
  /\ parseArgs suffixed_round_argv
     = (Return (initial_options (js "Hello") (js "100.75 rounds")), []).
Proof.
  split; [reflexivity|]. split; [reflexivity|]. split; [|split; [|split]].
  - refine (proj1 (proj1 (round_token_guard zero_round_argv
                            (js "Hello") (js "0") [] _ _ _) _ all_up));
      vm_compute; reflexivity.
  - vm_compute. reflexivity.
  - pose proof (round_token_guard beyond_safe_argv (js "Hello")
                  (js "9007199254740993") [] eq_refl
                  ltac:(vm_compute; reflexivity)
                  ltac:(vm_compute; reflexivity))
      as (_ & Hacc & _ & Hmax & _).
    exact (proj1 (proj2 (Hacc (Hmax ltac:(vm_compute; reflexivity)))
                   eq_refl)).
  - assert (Hl : leading_integer (js "100") (js ".75 rounds")).
    { vm_compute. repeat split. discriminate. }
    split; [exact Hl|].
    pose proof (round_token_guard suffixed_round_argv (js "Hello")
                  (js "100.75 rounds") [] eq_refl
                  ltac:(vm_compute; reflexivity)
                  ltac:(vm_compute; reflexivity))
      as (_ & Hacc & _ & _ & Hsuf).
    exact (proj1 (proj2 (Hacc (proj2 (Hsuf (js "100") (js ".75 rounds")
                                        eq_refl Hl))) eq_refl)).
Defined.
